(** * Meal agent: weighted ranking, history ledger and conversation state

    A shallow embedding of the Go packages [tools], [memory], [preference],
    [config] and [agent] of the meal-recommendation agent, followed by the
    properties of its ranking, history and dialogue code.

    Conventions of the embedding
    - a Go [string] is a byte sequence: Rocq's [string] (a list of 8-bit
      [ascii]); literals are the UTF-8 bytes of the source literals;
    - a Go [int] is a 64-bit two's-complement integer: a [Z] with the
      wrap-around of [+] and [*] written out ([go.wrap64]); [/] truncates
      toward zero ([Z.quot]);
    - a Go [map[string]int] is a [gmap string Z]; the order in which a
      [range] loop visits a map is not fixed by the language, so it is
      supplied by the environment;
    - a slice updated in place is a [list] with stdpp's lookup and insert;
    - a [(T, error)] result is a [go.result T], an [error] is the text of
      its [Error()];
    - what the program obtains from outside (clock, standard-library
      parsers, HTTP providers, the file system) is read from an environment
      ([go.Env], [agent.World]); calls to the providers are logged. *)

From Stdlib Require Import ZArith Lia Ascii String Permutation Sorted DecimalString.
From stdpp Require Import gmap strings list sorting.

Open Scope string_scope.
Open Scope list_scope.
Open Scope Z_scope.

(** ** The Go runtime and standard library, as far as the program uses them *)

Module go.

Inductive result (A : Type) : Type :=
| Ok (a : A)
| Err (e : string).
Arguments Ok {A} a.
Arguments Err {A} e.

(** *** [int] *)
Definition wrap64 (z : Z) : Z := (z + 2 ^ 63) mod 2 ^ 64 - 2 ^ 63.
Definition int_add (a b : Z) : Z := wrap64 (a + b).
Definition int_mul (a b : Z) : Z := wrap64 (a * b).
Definition int_quo (a b : Z) : Z := wrap64 (Z.quot a b).
Definition is_int (z : Z) : Prop := - 2 ^ 63 <= z < 2 ^ 63.

(** *** [strings] *)

(** [strings.Contains(s, substr)]: [substr] occurs in [s] as a contiguous
    run of bytes; the empty string occurs in every string. *)
Fixpoint Contains (s substr : string) : bool :=
  String.prefix substr s ||
  match s with
  | EmptyString => false
  | String _ s' => Contains s' substr
  end.

(** [strings.Split(s, sep)] for a one-byte separator. *)
Fixpoint Split (sep : ascii) (s : string) : list string :=
  match s with
  | EmptyString => [EmptyString]
  | String c s' =>
      if Ascii.eqb c sep then EmptyString :: Split sep s'
      else match Split sep s' with
           | p :: ps => String c p :: ps
           | [] => [String c EmptyString]
           end
  end.

(** [strings.Join(elems, sep)]. *)
Fixpoint Join (elems : list string) (sep : string) : string :=
  match elems with
  | [] => ""
  | e :: rest =>
      match rest with
      | [] => e
      | _ :: _ => e +:+ sep +:+ Join rest sep
      end
  end.

(** [s1 >= s2] on strings: byte-wise lexicographic order. *)
Definition string_ge (s1 s2 : string) : bool := String.leb s2 s1.

(** The newline of ["\n"]. *)
Definition LF : string := String (ascii_of_nat 10) EmptyString.

(** [%d] of a non-negative [int]. *)
Definition itoa (n : nat) : string := NilZero.string_of_uint (Nat.to_uint n).

(** *** [time] *)

(** An instant is a number of nanoseconds since the Unix epoch; a
    [time.Duration] is an [int64] number of nanoseconds. *)
Definition Hour_ns : Z := 3600 * 10 ^ 9.
Definition maxDuration : Z := 2 ^ 63 - 1.
Definition minDuration : Z := - 2 ^ 63.

(** [t.Sub(u)]: the difference, saturated to the range of a duration. *)
Definition Sub (t u : Z) : Z := Z.max minDuration (Z.min maxDuration (t - u)).

(** [int(d.Hours() / 24)].  [Hours] is a [float64]; the conversion to
    [int] truncates toward zero.  The program only compares the result
    with 0, 1, 2 and 3: for a duration under four days the quotient in
    [float64] lies within 2^-45 of the exact one, whose distance to the
    next whole number of days is at least 1 ns / 24 h > 2^-47 unless it is
    whole (and then the [float64] value is exact), so both truncate alike;
    for a longer duration both are at least 4, and for one below minus a
    day both are at most -1. *)
Definition whole_days (d : Z) : Z := Z.quot d (24 * Hour_ns).

(** What one reading of [time.Now()] shows to the program. *)
Record Reading := {
  instant : Z;                 (* the instant read *)
  Hour : Z;                    (* [.Hour()], local time *)
  date : string;               (* [.Format("2006-01-02")], local time *)
  hhmm : string;               (* [.Format("15:04")], local time *)
  date_days_ago : Z → string   (* [.AddDate(0, 0, -n).Format("2006-01-02")] *)
}.

(** *** [os] *)

(** Outcome of [os.WriteFile(path, data, 0644)]. *)
Inductive WriteOutcome : Type :=
| Written                (* the file holds [data] *)
| Refused (e : string)   (* the file could not be opened: it is unchanged *)
| Torn (e : string).     (* the file was truncated, then the write failed *)

(** *** The environment of one call into the program

    The clock is read as [Now] throughout one call. *)
Record Env := {
  Now : Reading;
  (** [time.Parse("2006-01-02", s)]: the instant of 00:00 UTC of that day,
      [None] for an error. *)
  Parse : string → option Z;
  (** The value [fmt.Sscanf(s, "%d", &n)] leaves in an [n] that held 0. *)
  Sscanf_d : string → Z;
  (** What [os.WriteFile] does when this call reaches it. *)
  WriteFile : WriteOutcome;
  (** The order in which the [k]-th [range] over a [map[string]int] of
      this call visits the map's entries. *)
  range_order : nat → gmap string Z → list (string * Z)
}.

(** A [range] visits every entry of the map, once. *)
Definition range_sound (E : Env) : Prop :=
  ∀ k m, range_order E k m ≡ₚ map_to_list m.

(** *** A model of [time.Parse] for the layout ["2006-01-02"]

    Four digits, a dash, two digits, a dash, two digits and nothing
    else; the month in 1..12 and the day within the month. *)
Definition digit (c : ascii) : option Z :=
  let n := Z.of_N (N_of_ascii c) in
  if (48 <=? n) && (n <=? 57) then Some (n - 48) else None.

Definition is_leap (y : Z) : bool :=
  (y mod 4 =? 0) && (negb (y mod 100 =? 0) || (y mod 400 =? 0)).

Definition daysIn (m y : Z) : Z :=
  if m =? 2 then (if is_leap y then 29 else 28)
  else if (m =? 4) || (m =? 6) || (m =? 9) || (m =? 11) then 30 else 31.

(** Days from 1970-01-01 to the given civil date. *)
Definition days_from_civil (y m d : Z) : Z :=
  let y' := if m <=? 2 then y - 1 else y in
  let era := y' / 400 in
  let yoe := y' - era * 400 in
  let doy := (153 * (if 2 <? m then m - 3 else m + 9) + 2) / 5 + d - 1 in
  let doe := yoe * 365 + yoe / 4 - yoe / 100 + doy in
  era * 146097 + doe - 719468.

Definition Parse_date (s : string) : option Z :=
  match s with
  | String y1 (String y2 (String y3 (String y4 (String "-" (String m1
      (String m2 (String "-" (String d1 (String d2 EmptyString))))))))) =>
      match digit y1, digit y2, digit y3, digit y4,
            digit m1, digit m2, digit d1, digit d2 with
      | Some a, Some b, Some c, Some d, Some e, Some f, Some g, Some h =>
          let y := a * 1000 + b * 100 + c * 10 + d in
          let m := e * 10 + f in
          let dd := g * 10 + h in
          if (1 <=? m) && (m <=? 12) && (1 <=? dd) && (dd <=? daysIn m y)
          then Some (days_from_civil y m dd * 24 * Hour_ns)
          else None
      | _, _, _, _, _, _, _, _ => None
      end
  | _ => None
  end.

(** *** Slices

    [make([]T, 0, cap)]: the runtime panics when [cap] is negative or when
    the capacity in bytes exceeds the largest allocation, [2^48] bytes on
    the 64-bit platforms whose [int] is modelled above; an allocation within
    these bounds is taken to succeed. *)
Definition makeslice_ok (elemsize cap : Z) : bool :=
  (0 <=? cap) && (elemsize * cap <=? 2 ^ 48).

End go.

(** ** Package [tools] *)

Module tools.

(** [WeatherInfo]. *)
Record WeatherInfo := mkWeatherInfo {
  Temp : string;
  FeelsLike : string;
  Text : string;
  WindDir : string;
  WindScale : string;
  Humidity : string
}.

Definition Describe_weather (w : WeatherInfo) : string :=
  "当前天气：" +:+ Text w +:+ "，温度 " +:+ Temp w +:+ "°C，体感温度 "
    +:+ FeelsLike w +:+ "°C，" +:+ WindDir w +:+ " " +:+ WindScale w
    +:+ "级，湿度 " +:+ Humidity w +:+ "%".

Definition SuggestFoodType (E : go.Env) (w : WeatherInfo) : string :=
  let temp := go.Sscanf_d E (Temp w) in
  if temp <=? 5 then "天气寒冷，推荐热汤、火锅、羊肉等暖身食物"
  else if temp <=? 15 then "天气偏凉，推荐热食、炖菜、面食等"
  else if temp <=? 25 then "天气舒适，各类食物都适合"
  else if temp <=? 32 then "天气炎热，推荐清淡、凉菜、冷面等解暑食物"
  else "天气酷热，推荐解暑降温的食物，注意多喝水".

(** [Restaurant]; [Type_] is the Go field [Type], [Category] holds a
    [MealCategory], a string. *)
Record Restaurant := mkRestaurant {
  Name : string;
  Type_ : string;
  Address : string;
  Distance : string;
  Rating : string;
  Cost : string;
  Tel : string;
  Weight : Z;
  Category : string
}.

#[global] Instance Restaurant_eq_dec : EqDecision Restaurant.
Proof. solve_decision. Defined.

(** [restaurants[i].Weight = w]. *)
Definition set_Weight (w : Z) (r : Restaurant) : Restaurant :=
  mkRestaurant (Name r) (Type_ r) (Address r) (Distance r) (Rating r)
               (Cost r) (Tel r) w (Category r).

(** [blacklistMap[r.Name]] is true exactly for the names of [blacklist]. *)
Definition FilterByBlacklist (restaurants : list Restaurant)
    (blacklist : list string) : list Restaurant :=
  filter (λ r, Name r ∉ blacklist) restaurants.

Definition excluded (excludeTypes : list string) (r : Restaurant) : bool :=
  existsb (λ t, go.Contains (Type_ r) t || go.Contains (Name r) t) excludeTypes.

Definition FilterByType (restaurants : list Restaurant)
    (excludeTypes : list string) : list Restaurant :=
  filter (λ r, excluded excludeTypes r = false) restaurants.

Definition Describe (r : Restaurant) : string :=
  let desc := Name r in
  let desc := if decide (Type_ r = "") then desc
              else desc +:+ "（" +:+ Type_ r +:+ "）" in
  let desc := if decide (Distance r = "") then desc
              else desc +:+ " - " +:+ Distance r +:+ "米" in
  let desc := if decide (Rating r ≠ "" ∧ Rating r ≠ "[]")
              then desc +:+ " - 评分" +:+ Rating r else desc in
  let desc := if decide (Cost r ≠ "" ∧ Cost r ≠ "[]")
              then desc +:+ " - 人均¥" +:+ Cost r else desc in
  desc.

(** The body of the inner loop of [SortByWeight]:
    [if r[j].Weight > r[i].Weight { r[i], r[j] = r[j], r[i] }]. *)
Definition compare_swap (i j : nat) (rs : list Restaurant) : list Restaurant :=
  match rs !! i, rs !! j with
  | Some a, Some b =>
      if decide (Weight a < Weight b) then <[i := b]> (<[j := a]> rs) else rs
  | _, _ => rs
  end.

(** [for j := i + 1; j < len(restaurants); j++]: the slice keeps its
    length, so [j] runs over a fixed range. *)
Definition SortByWeight_inner (i : nat) (rs : list Restaurant) : list Restaurant :=
  foldl (λ acc j, compare_swap i j acc) rs (seq (S i) (length rs - S i)).

(** [for i := 0; i < len(restaurants)-1; i++]. *)
Definition SortByWeight (rs : list Restaurant) : list Restaurant :=
  foldl (λ acc i, SortByWeight_inner i acc) rs (seq 0 (length rs - 1)).

Definition FilterByWeight (restaurants : list Restaurant) : list Restaurant :=
  filter (λ r, 0 < Weight r) restaurants.

(** The three values of [MealCategory]. *)
Definition CategoryQuickMeal : string := "quick".
Definition CategoryFullMeal : string := "full".
Definition CategoryOther : string := "other".

Definition quickMealKeywords : list string :=
  [ "面"; "粉"; "拌饭"; "盖饭"; "快餐"; "简餐"; "便当"; "饭团";
    "包子"; "饺子"; "馄饨"; "小吃"; "煎饼"; "肉夹馍"; "凉皮";
    "麻辣烫"; "冒菜"; "米线"; "酸辣粉"; "螺蛳粉";
    "汉堡"; "披萨"; "炸鸡"; "三明治"; "沙拉";
    "寿司"; "饭卷"; "便利店" ].

Definition fullMealKeywords : list string :=
  [ "中餐厅"; "川菜"; "湘菜"; "粤菜"; "鲁菜"; "苏菜"; "浙菜"; "徽菜"; "闽菜";
    "东北菜"; "本帮菜"; "家常菜"; "私房菜"; "农家菜";
    "火锅"; "烤肉"; "烧烤"; "自助餐";
    "西餐"; "日料"; "韩餐"; "泰餐"; "东南亚" ].

Definition ClassifyRestaurant (r : Restaurant) : string :=
  let nameAndType := Name r +:+ Type_ r in
  if existsb (λ kw, go.Contains nameAndType kw) quickMealKeywords
  then CategoryQuickMeal
  else if existsb (λ kw, go.Contains nameAndType kw) fullMealKeywords
  then CategoryFullMeal
  else CategoryOther.

(** [restaurants[i].Category = c]. *)
Definition set_Category (c : string) (r : Restaurant) : Restaurant :=
  mkRestaurant (Name r) (Type_ r) (Address r) (Distance r) (Rating r)
               (Cost r) (Tel r) (Weight r) c.

Definition ClassifyAllRestaurants (restaurants : list Restaurant)
    : list Restaurant :=
  (λ r, set_Category (ClassifyRestaurant r) r) <$> restaurants.

(** The loop of [GetWeather], [fuel] iterations before [retry] reaches 3.
    [once k] is what the [k]-th call of [getWeatherOnce] returns.  Beside
    the result: the number of calls made and the seconds slept. *)
Fixpoint GetWeather_loop (once : nat → go.result WeatherInfo) (fuel retry : nat)
    (slept : Z) (lastErr : string) : go.result WeatherInfo * nat * Z :=
  match fuel with
  | O => (go.Err ("获取天气失败（已重试3次）: " +:+ lastErr), retry, slept)
  | S fuel' =>
      let slept := if decide (0 < retry)%nat then slept + Z.of_nat retry else slept in
      match once retry with
      | go.Ok info => (go.Ok info, S retry, slept)
      | go.Err err => GetWeather_loop once fuel' (S retry) slept err
      end
  end.

(** [GetWeather]; [%v] of the nil [lastErr] is never printed. *)
Definition GetWeather (once : nat → go.result WeatherInfo)
    : go.result WeatherInfo * nat * Z :=
  GetWeather_loop once 3 0 0 "<nil>".

End tools.

(** ** Package [memory] *)

Module memory.

Record MealRecord := mkMealRecord {
  Date : string;
  MealType : string;
  Restaurant : string;
  Category : string;
  Rating : Z;
  Note : string
}.

#[global] Instance MealRecord_eq_dec : EqDecision MealRecord.
Proof. solve_decision. Defined.

Record History := mkHistory {
  Records : list MealRecord;
  filePath : string
}.

(** The files of the machine.  A history file holds the JSON document of
    a record list; it is kept as the list it encodes
    ([json.MarshalIndent] of a slice of records returns no error). *)
Abbreviation Files := (gmap string (list MealRecord)).

(** [save]: the error of [os.WriteFile], and the files afterwards. *)
Definition save (E : go.Env) (h : History) (files : Files)
    : option string * Files :=
  match go.WriteFile E with
  | go.Written => (None, <[filePath h := Records h]> files)
  | go.Refused e => (Some e, files)
  | go.Torn e => (Some e, delete (filePath h) files)
  end.

Definition with_Date (d : string) (r : MealRecord) : MealRecord :=
  mkMealRecord d (MealType r) (Restaurant r) (Category r) (Rating r) (Note r).

(** [Add]: the returned error, the history and the files afterwards. *)
Definition Add (E : go.Env) (record : MealRecord) (h : History) (files : Files)
    : option string * History * Files :=
  let record := if decide (Date record = "")
                then with_Date (go.date (go.Now E)) record else record in
  let h := mkHistory (Records h ++ [record]) (filePath h) in
  let '(err, files) := save E h files in
  (err, h, files).

Definition GetRecent (E : go.Env) (h : History) (days : Z) : list MealRecord :=
  let cutoff := go.date_days_ago (go.Now E) days in
  filter (λ r, go.string_ge (Date r) cutoff = true) (Records h).

(** The [switch] of [GetAllPenalties] on [daysDiff]; a [penalty] that no
    case assigns keeps its zero value. *)
Definition penalty_of_days (daysDiff : Z) : Z :=
  if daysDiff =? 0 then -80
  else if daysDiff =? 1 then -50
  else if daysDiff =? 2 then -30
  else if daysDiff =? 3 then -15
  else 0.

(** [daysDiff] of a record, when its date parses. *)
Definition daysDiff (E : go.Env) (r : MealRecord) : option Z :=
  match go.Parse E (Date r) with
  | Some recordDate =>
      Some (go.whole_days (go.Sub (go.instant (go.Now E)) recordDate))
  | None => None
  end.

(** One iteration of the loop of [GetAllPenalties]. *)
Definition penalties_step (E : go.Env) (penalties : gmap string Z)
    (r : MealRecord) : gmap string Z :=
  match daysDiff E r with
  | None => penalties
  | Some d =>
      if decide (3 < d) then penalties
      else
        let penalty := penalty_of_days d in
        match penalties !! Restaurant r with
        | Some existing =>
            if decide (penalty < existing)
            then <[Restaurant r := penalty]> penalties else penalties
        | None => <[Restaurant r := penalty]> penalties
        end
  end.

Definition GetAllPenalties (E : go.Env) (h : History) : gmap string Z :=
  foldl (penalties_step E) ∅ (Records h).

Definition GetToday (E : go.Env) (h : History) : list MealRecord :=
  filter (λ r, Date r = go.date (go.Now E)) (Records h).

(** One iteration of the loop of [GetRecentRestaurants], on the map [seen]
    and the slice [restaurants]. *)
Definition recent_step (acc : gmap string bool * list string) (r : MealRecord)
    : gmap string bool * list string :=
  let '(seen, restaurants) := acc in
  if default false (seen !! Restaurant r) then (seen, restaurants)
  else (<[Restaurant r := true]> seen, restaurants ++ [Restaurant r]).

Definition GetRecentRestaurants (E : go.Env) (h : History) (days : Z)
    : list string :=
  (foldl recent_step (∅, []) (GetRecent E h days)).2.

(** The loop of [GetRecentPenalty] over the records left. *)
Fixpoint GetRecentPenalty_loop (E : go.Env) (restaurantName : string)
    (records : list MealRecord) : Z :=
  match records with
  | [] => 0
  | r :: rest =>
      if decide (Restaurant r ≠ restaurantName)
      then GetRecentPenalty_loop E restaurantName rest
      else
        match daysDiff E r with
        | None => GetRecentPenalty_loop E restaurantName rest
        | Some d =>
            if d =? 0 then -80
            else if d =? 1 then -50
            else if d =? 2 then -30
            else if d =? 3 then -15
            else GetRecentPenalty_loop E restaurantName rest
        end
  end.

Definition GetRecentPenalty (E : go.Env) (h : History) (restaurantName : string)
    : Z :=
  GetRecentPenalty_loop E restaurantName (Records h).

Definition Summary (E : go.Env) (h : History) : string :=
  let recent := GetRecent E h 7 in
  match recent with
  | [] => "暂无用餐历史记录"
  | _ :: _ =>
      foldl (λ summary r,
               let summary := summary +:+ "- " +:+ Date r +:+ " " +:+ MealType r
                                +:+ ": " +:+ Restaurant r in
               let summary := if decide (Category r = "") then summary
                              else summary +:+ "（" +:+ Category r +:+ "）" in
               summary +:+ go.LF)
            ("最近7天用餐记录：" +:+ go.LF) recent
  end.

(** The local type [kv] of [GetFrequent]. *)
Record kv := mkkv { Name : string; Count : Z }.

(** [count[r.Restaurant]++], over the records. *)
Definition count_visits (records : list MealRecord) : gmap string Z :=
  foldl (λ count r,
           <[Restaurant r := go.int_add (default 0 (count !! Restaurant r)) 1]> count)
        ∅ records.

(** [if sorted[j].Count > sorted[i].Count { sorted[i], sorted[j] = ... }]. *)
Definition kv_swap (i j : nat) (sorted : list kv) : list kv :=
  match sorted !! i, sorted !! j with
  | Some a, Some b =>
      if decide (Count a < Count b) then <[i := b]> (<[j := a]> sorted) else sorted
  | _, _ => sorted
  end.

(** [for j := i + 1; j < len(sorted); j++]. *)
Definition sort_inner (i : nat) (sorted : list kv) : list kv :=
  foldl (λ acc j, kv_swap i j acc) sorted (seq (S i) (length sorted - S i)).

(** [for i := 0; i < len(sorted)-1; i++]. *)
Definition sort_by_count (sorted : list kv) : list kv :=
  foldl (λ acc i, sort_inner i acc) sorted (seq 0 (length sorted - 1)).

(** [GetFrequent]: [None] is the panic of [make] on a capacity it refuses;
    a [string] takes 16 bytes.  The last loop copies the names of the first
    [topN] entries, or of all of them where there are fewer. *)
Definition GetFrequent (E : go.Env) (h : History) (topN : Z)
    : option (list string) :=
  let count := count_visits (Records h) in
  let sorted := (λ e, mkkv e.1 e.2) <$> go.range_order E 0 count in
  let sorted := sort_by_count sorted in
  if go.makeslice_ok 16 topN
  then Some (Name <$> take (Z.to_nat topN) sorted)
  else None.

End memory.

(** ** Package [preference] *)

Module preference.

(** The two indexes of [Preferences]; the lists they are built from are
    not read by the ranking. *)
Record Preferences := mkPreferences {
  restaurantMap : gmap string Z;
  categoryMap : gmap string Z
}.

Definition GetRestaurantWeight (p : Preferences) (name : string) : Z :=
  match restaurantMap p !! name with
  | Some weight => weight
  | None => 100
  end.

(** The loop of [GetCategoryWeight] over the entries in the order of the
    [range]: the first category found in [typeStr] decides. *)
Fixpoint first_category (entries : list (string * Z)) (typeStr : string)
    : option (string * Z) :=
  match entries with
  | [] => None
  | (category, weight) :: rest =>
      if go.Contains typeStr category then Some (category, weight)
      else first_category rest typeStr
  end.

(** [GetCategoryWeight], as the [k]-th [range] of the call. *)
Definition GetCategoryWeight (E : go.Env) (k : nat) (p : Preferences)
    (typeStr : string) : Z :=
  match first_category (go.range_order E k (categoryMap p)) typeStr with
  | Some (_, weight) => weight
  | None => 100
  end.

Definition IsBlacklisted (p : Preferences) (name : string) : bool :=
  match restaurantMap p !! name with
  | Some weight => weight =? 0
  | None => false
  end.

Record RestaurantPreference := mkRestaurantPreference {
  Name : string;
  Weight : Z;
  Note : string
}.

(** The index [Load] builds from the list of restaurant preferences:
    [for _, r := range p.Restaurants { p.restaurantMap[r.Name] = r.Weight }]. *)
Definition index_restaurants (restaurants : list RestaurantPreference)
    : gmap string Z :=
  foldl (λ m r, <[Name r := Weight r]> m) ∅ restaurants.

(** The first loop of [SetRestaurantWeight]: the first entry of that name
    gets the weight and the note; [found] tells whether there was one. *)
Fixpoint update_first (name : string) (weight : Z) (note : string)
    (restaurants : list RestaurantPreference)
    : list RestaurantPreference * bool :=
  match restaurants with
  | [] => ([], false)
  | r :: rest =>
      if decide (Name r = name)
      then (mkRestaurantPreference (Name r) weight note :: rest, true)
      else let '(rest', found) := update_first name weight note rest in
           (r :: rest', found)
  end.

(** [SetRestaurantWeight] on the list [p.Restaurants] and the index. *)
Definition SetRestaurantWeight (restaurants : list RestaurantPreference)
    (p : Preferences) (name : string) (weight : Z) (note : string)
    : list RestaurantPreference * Preferences :=
  let '(restaurants, found) := update_first name weight note restaurants in
  let restaurants :=
    if found then restaurants
    else restaurants ++ [mkRestaurantPreference name weight note] in
  (restaurants, mkPreferences (<[name := weight]> (restaurantMap p)) (categoryMap p)).

End preference.

(** ** Package [config] *)

Module config.

Record Location := mkLocation {
  Lat : string;
  Lng : string;
  City : string;
  Radius : Z
}.

(** The fields of [Config] the agent reads. *)
Record Config := mkConfig {
  location : Location;
  Blacklist : list string;
  TempExclude : list string
}.

Definition ClearTempExclude (c : Config) : Config :=
  mkConfig (location c) (Blacklist c) [].

Definition AddTempExclude (c : Config) (name : string) : Config :=
  mkConfig (location c) (Blacklist c) (TempExclude c ++ [name]).

Definition IsBlacklisted (c : Config) (name : string) : bool :=
  if existsb (λ b, bool_decide (b = name)) (Blacklist c) then true
  else if existsb (λ t, bool_decide (t = name)) (TempExclude c) then true
  else false.

End config.

(** ** Package [agent] *)

Module agent.

Record Message := mkMessage {
  Role : string;
  Content : string
}.

(** A call to one of the three providers. *)
Inductive Call : Type :=
| WeatherCall (city : string)
| PlacesCall (lat lng : string) (radius : Z) (keyword : string)
| LLMCall (messages : list Message).

(** The environment of one call into the agent: the runtime and the
    answers of the providers. *)
Record World := mkWorld {
  env : go.Env;
  GetWeather : string → go.result tools.WeatherInfo;
  SearchNearby : string → string → Z → string → go.result (list tools.Restaurant);
  LLM_Chat : list Message → go.result string
}.

(** [MealAgent]; [pref] may be nil.  The three clients are in [World]. *)
Record MealAgent := mkMealAgent {
  cfg : config.Config;
  history : memory.History;
  pref : option preference.Preferences;
  messages : list Message;
  tempExclude : list string;
  lastRestaurants : list tools.Restaurant
}.

(** The agent together with what its calls change outside of it. *)
Record Sys := mkSys {
  self : MealAgent;
  files : gmap string (list memory.MealRecord);
  calls : list Call
}.

Definition logged (c : Call) (s : Sys) : Sys :=
  mkSys (self s) (files s) (calls s ++ [c]).

Definition with_self (a : MealAgent) (s : Sys) : Sys :=
  mkSys a (files s) (calls s).

Definition set_messages (ms : list Message) (a : MealAgent) : MealAgent :=
  mkMealAgent (cfg a) (history a) (pref a) ms (tempExclude a) (lastRestaurants a).

Definition set_tempExclude (ex : list string) (a : MealAgent) : MealAgent :=
  mkMealAgent (cfg a) (history a) (pref a) (messages a) ex (lastRestaurants a).

Definition set_lastRestaurants (rs : list tools.Restaurant) (a : MealAgent)
    : MealAgent :=
  mkMealAgent (cfg a) (history a) (pref a) (messages a) (tempExclude a) rs.

Definition set_history (h : memory.History) (a : MealAgent) : MealAgent :=
  mkMealAgent (cfg a) h (pref a) (messages a) (tempExclude a) (lastRestaurants a).

Definition set_cfg (c : config.Config) (a : MealAgent) : MealAgent :=
  mkMealAgent c (history a) (pref a) (messages a) (tempExclude a) (lastRestaurants a).

Definition systemPrompt : string :=
  "你是一个贴心的饮食建议助手。你的任务是根据天气、用户位置附近的餐厅、以及用户的历史用餐记录，给出合适的用餐建议。

注意事项：
1. 根据天气推荐合适的食物类型（冷天推荐热食，热天推荐清淡）
2. 避免连续几天推荐相同的餐厅
3. 推荐时考虑餐厅评分和距离
4. 如果用户说不想吃某种类型，要记住并排除
5. 回复要简洁实用，不要太啰嗦
6. 给出 2-3 个选择，让用户决定

回复格式示例：
根据今天的天气和你的位置，我推荐：
1. XXX（推荐理由）
2. YYY（推荐理由）
3. ZZZ（推荐理由）

想吃哪个？或者告诉我你不想吃什么，我再推荐。".

(** [map[string]string{"lunch": "午餐", "dinner": "晚餐"}[mealType]]. *)
Definition mealName (mealType : string) : string :=
  if decide (mealType = "lunch") then "午餐"
  else if decide (mealType = "dinner") then "晚餐"
  else "".

(** [mealType] as every caller derives it from the hour. *)
Definition mealType_now (E : go.Env) : string :=
  if 15 <=? go.Hour (go.Now E) then "dinner" else "lunch".

(** The body of the weight loop of [GetRecommendation] for
    [restaurants[i]]. *)
Definition weight_of (E : go.Env) (pref : option preference.Preferences)
    (penalties : gmap string Z) (i : nat) (r : tools.Restaurant) : Z :=
  let weight := 100 in
  let weight :=
    match pref with
    | Some p =>
        let prefWeight := preference.GetRestaurantWeight p (tools.Name r) in
        let weight := if prefWeight =? 0 then 0 else prefWeight in
        let catWeight := preference.GetCategoryWeight E i p (tools.Type_ r) in
        if catWeight =? 100 then weight
        else go.int_quo (go.int_mul weight catWeight) 100
    | None => weight
    end in
  match penalties !! tools.Name r with
  | Some penalty => go.int_add weight penalty
  | None => weight
  end.

(** The weight loop: [for i := range restaurants { ... }]. *)
Definition assign_weights (E : go.Env) (pref : option preference.Preferences)
    (penalties : gmap string Z) (restaurants : list tools.Restaurant)
    : list tools.Restaurant :=
  imap (λ i r, tools.set_Weight (weight_of E pref penalties i r) r) restaurants.

(** Steps 3 to 5 of [GetRecommendation] and the pruning and sort after
    them: from the candidates found to the ranked list. *)
Definition ranked (E : go.Env) (a : MealAgent)
    (restaurants : list tools.Restaurant) : list tools.Restaurant :=
  let allBlacklist := config.Blacklist (cfg a) ++ config.TempExclude (cfg a) in
  let restaurants := tools.FilterByBlacklist restaurants allBlacklist in
  let restaurants :=
    match tempExclude a with
    | [] => restaurants
    | _ :: _ => tools.FilterByType restaurants (tempExclude a)
    end in
  let penalties := memory.GetAllPenalties E (history a) in
  let restaurants := assign_weights E (pref a) penalties restaurants in
  let restaurants := tools.FilterByWeight restaurants in
  tools.SortByWeight restaurants.

Definition buildPrompt (E : go.Env) (a : MealAgent) (mealType : string)
    (weather : tools.WeatherInfo) (restaurants : list tools.Restaurant) : string :=
  let sb := "现在是" +:+ mealName mealType +:+ "时间，请推荐用餐选择。"
              +:+ go.LF +:+ go.LF in
  let sb := sb +:+ "【天气信息】" +:+ go.LF in
  let sb := sb +:+ tools.Describe_weather weather +:+ go.LF in
  let sb := sb +:+ tools.SuggestFoodType E weather +:+ go.LF +:+ go.LF in
  let sb := sb +:+ "【附近餐厅】" +:+ go.LF in
  let sb := foldl String.append sb
              (imap (λ i r, go.itoa (i + 1) +:+ ". " +:+ tools.Describe r +:+ go.LF)
                    (take 15 restaurants)) in
  let sb := sb +:+ go.LF +:+ "【历史记录】" +:+ go.LF in
  let sb := sb +:+ memory.Summary E (history a) in
  let sb :=
    match tempExclude a with
    | [] => sb
    | _ :: _ => sb +:+ go.LF +:+ "【本次排除】" +:+ go.LF
                  +:+ "用户表示不想吃：" +:+ go.Join (tempExclude a) "、"
    end in
  sb +:+ go.LF +:+ go.LF +:+ "请根据以上信息，推荐 3 个最合适的选择，并说明推荐理由。".

Definition placeholder_weather : tools.WeatherInfo :=
  tools.mkWeatherInfo "20" "" "未知" "" "" "".

Definition no_candidate_message : string :=
  "附近没有找到合适的餐厅，考虑扩大搜索范围或减少排除条件".

Definition GetRecommendation (W : World) (mealType : string) (s : Sys)
    : go.result string * Sys :=
  let a := self s in
  let loc := config.location (cfg a) in
  (* 1 *)
  let s := logged (WeatherCall (config.City loc)) s in
  let weatherInfo :=
    match GetWeather W (config.City loc) with
    | go.Ok info => info
    | go.Err _ => placeholder_weather
    end in
  (* 2 *)
  let s := logged (PlacesCall (config.Lat loc) (config.Lng loc)
                              (config.Radius loc) "") s in
  match SearchNearby W (config.Lat loc) (config.Lng loc) (config.Radius loc) "" with
  | go.Err err => (go.Err ("搜索餐厅失败: " +:+ err), s)
  | go.Ok restaurants =>
      (* 3, 4, 5 *)
      let restaurants := ranked (env W) a restaurants in
      match restaurants with
      | [] => (go.Ok no_candidate_message, s)
      | _ :: _ =>
          let a := set_lastRestaurants restaurants a in
          (* 6 *)
          let prompt := buildPrompt (env W) a mealType weatherInfo restaurants in
          let a := match messages a with
                   | [] => set_messages [mkMessage "system" systemPrompt] a
                   | _ :: _ => a
                   end in
          let a := set_messages (messages a ++ [mkMessage "user" prompt]) a in
          (* 7 *)
          let s := logged (LLMCall (messages a)) s in
          match LLM_Chat W (messages a) with
          | go.Err err => (go.Err ("LLM 调用失败: " +:+ err), with_self a s)
          | go.Ok response =>
              let a := set_messages
                         (messages a ++ [mkMessage "assistant" response]) a in
              (go.Ok response, with_self a s)
          end
      end
  end.

Definition isConfirmation (input : string) : bool :=
  existsb (λ kw, go.Contains input kw)
    ["就这个"; "就吃"; "好的"; "确定"; "就它"; "选这个"; "第一个"; "第二个"; "第三个"].

Definition exclusion_keywords : list string :=
  [ "火锅"; "川菜"; "湘菜"; "烧烤"; "日料"; "韩餐"; "西餐";
    "面"; "米饭"; "快餐"; "麻辣"; "清淡"; "油腻";
    "粤菜"; "东北菜"; "本帮菜"; "鲁菜"; "徽菜";
    "披萨"; "汉堡"; "炸鸡"; "烤肉"; "寿司"; "拉面";
    "饺子"; "包子"; "小吃"; "甜品"; "奶茶" ].

Definition containsExclude (tempExclude : list string) (kw : string) : bool :=
  existsb (λ e, bool_decide (e = kw)) tempExclude.

(** [parseExclusion]: the new value of [a.tempExclude]. *)
Definition parseExclusion (input : string) (tempExclude : list string)
    : list string :=
  foldl (λ ex kw, if go.Contains input kw && negb (containsExclude ex kw)
                  then ex ++ [kw] else ex)
        tempExclude exclusion_keywords.

Definition orderPatterns : list (string * nat) :=
  [ ("第一", 0%nat); ("1号", 0%nat); ("第1", 0%nat);
    ("第二", 1%nat); ("2号", 1%nat); ("第2", 1%nat);
    ("第三", 2%nat); ("3号", 2%nat); ("第3", 2%nat) ].

(** [extractSelection]: the candidate pointed to, [None] for nil. *)
Definition extractSelection (lastRestaurants : list tools.Restaurant)
    (input : string) : option tools.Restaurant :=
  match lastRestaurants with
  | [] => None
  | _ :: _ =>
      match find (λ p : string * nat,
                    go.Contains input p.1 &&
                    bool_decide (p.2 < length lastRestaurants)%nat)
                 orderPatterns with
      | Some p => lastRestaurants !! p.2
      | None =>
          match find (λ r, go.Contains input (tools.Name r)) lastRestaurants with
          | Some r => Some r
          | None =>
              if bool_decide (0 < length lastRestaurants)%nat &&
                 (go.Contains input "就这个" || go.Contains input "就它"
                  || go.Contains input "好的")
              then lastRestaurants !! 0%nat
              else None
          end
      end
  end.

Definition extractCategory (typeStr : string) : string :=
  match go.Split ";" typeStr with
  | _ :: _ :: p2 :: _ => p2
  | _ :: p1 :: _ => p1
  | _ => typeStr
  end.

Definition clarification_message : string :=
  "请告诉我你选择哪个餐厅，可以说餐厅名称或者「第一个」「第二个」等".

Definition confirmChoice (W : World) (input : string) (s : Sys)
    : go.result string * Sys :=
  let a := self s in
  match extractSelection (lastRestaurants a) input with
  | None => (go.Ok clarification_message, s)
  | Some selectedRestaurant =>
      let mealType := mealType_now (env W) in
      let record :=
        memory.mkMealRecord (go.date (go.Now (env W))) mealType
          (tools.Name selectedRestaurant)
          (extractCategory (tools.Type_ selectedRestaurant)) 0 "" in
      let '(err, h, fs) := memory.Add (env W) record (history a) (files s) in
      let s := mkSys (set_history h a) fs (calls s) in
      match err with
      | Some e => (go.Err ("记录失败: " +:+ e), s)
      | None =>
          (go.Ok ("好的，已记录本次" +:+ mealName mealType +:+ "选择："
                    +:+ tools.Name selectedRestaurant
                    +:+ "。下次会避免重复推荐。祝用餐愉快！🍽️"), s)
      end
  end.

Definition exclusion_intent (userInput : string) : bool :=
  go.Contains userInput "不想吃" || go.Contains userInput "不要"
  || go.Contains userInput "不吃" || go.Contains userInput "换一个".

Definition recommendation_intent (userInput : string) : bool :=
  go.Contains userInput "推荐" || go.Contains userInput "吃什么"
  || go.Contains userInput "有什么".

(** The last part of [Chat]: the turn goes to the language model. *)
Definition forward_to_LLM (W : World) (userInput : string) (s : Sys)
    : go.result string * Sys :=
  let a := self s in
  let a := set_messages (messages a ++ [mkMessage "user" userInput]) a in
  let s := logged (LLMCall (messages a)) s in
  match LLM_Chat W (messages a) with
  | go.Err err => (go.Err err, with_self a s)
  | go.Ok response =>
      let a := set_messages (messages a ++ [mkMessage "assistant" response]) a in
      (go.Ok response, with_self a s)
  end.

Definition Chat (W : World) (userInput : string) (s : Sys)
    : go.result string * Sys :=
  let s :=
    if exclusion_intent userInput
    then with_self (set_tempExclude
                      (parseExclusion userInput (tempExclude (self s))) (self s)) s
    else s in
  if isConfirmation userInput then confirmChoice W userInput s
  else if recommendation_intent userInput
  then GetRecommendation W (mealType_now (env W)) s
  else forward_to_LLM W userInput s.

Definition RecordMeal (W : World) (restaurant category : string) (s : Sys)
    : option string * Sys :=
  let a := self s in
  let record :=
    memory.mkMealRecord (go.date (go.Now (env W))) (mealType_now (env W))
                        restaurant category 0 "" in
  let '(err, h, fs) := memory.Add (env W) record (history a) (files s) in
  (err, mkSys (set_history h a) fs (calls s)).

Definition Reset (a : MealAgent) : MealAgent :=
  mkMealAgent (cfg a) (history a) (pref a) [] [] [].

(** *** The scheduler *)

Record Scheduler := mkScheduler {
  agent_ : Sys;               (* the agent the scheduler points to *)
  lunchTime : string;
  dinnerTime : string;
  notifyCh : list string      (* what has been sent on the channel *)
}.

Definition with_agent (s : Sys) (sch : Scheduler) : Scheduler :=
  mkScheduler s (lunchTime sch) (dinnerTime sch) (notifyCh sch).

Definition notify (msg : string) (sch : Scheduler) : Scheduler :=
  mkScheduler (agent_ sch) (lunchTime sch) (dinnerTime sch) (notifyCh sch ++ [msg]).

Definition triggerRecommendation (W : World) (mealType : string)
    (sch : Scheduler) : Scheduler :=
  let s := agent_ sch in
  let s := with_self (Reset (self s)) s in
  let '(res, s) := GetRecommendation W mealType s in
  let sch := with_agent s sch in
  match res with
  | go.Err err => notify ("获取推荐失败: " +:+ err) sch
  | go.Ok recommendation =>
      notify (go.LF +:+ "🍽️  " +:+ mealName mealType +:+ "时间到！"
                +:+ go.LF +:+ go.LF +:+ recommendation) sch
  end.

Definition ManualTrigger (W : World) (sch : Scheduler) : Scheduler :=
  triggerRecommendation W (mealType_now (env W)) sch.

(** One firing of the ticker in [run], with the loop's [lastDate]. *)
Definition tick (W : World) (lastDate : string) (sch : Scheduler)
    : string * Scheduler :=
  let now := go.Now (env W) in
  let currentTime := go.hhmm now in
  let currentDate := go.date now in
  let '(lastDate, sch) :=
    if decide (currentDate ≠ lastDate)
    then
      let s := agent_ sch in
      let a := set_cfg (config.ClearTempExclude (cfg (self s))) (self s) in
      (currentDate, with_agent (with_self (Reset a) s) sch)
    else (lastDate, sch) in
  if decide (currentTime = lunchTime sch)
  then (lastDate, triggerRecommendation W "lunch" sch)
  else if decide (currentTime = dinnerTime sch)
  then (lastDate, triggerRecommendation W "dinner" sch)
  else (lastDate, sch).

End agent.

(** ** Vocabulary of the properties *)

(** *** Ranking *)

(** Ranking order: weights never increase along the list. *)
Definition by_weight_desc (a b : tools.Restaurant) : Prop :=
  tools.Weight b <= tools.Weight a.

(** Stability: the candidates of any one weight appear in the output in
    the order they have in the input. *)
Definition stable_wrt (input output : list tools.Restaurant) : Prop :=
  ∀ w, filter (λ r, tools.Weight r = w) output
       = filter (λ r, tools.Weight r = w) input.

(** The sort read as a recursion on the list: one pass of the inner loop
    carries a pivot through the rest of the list and leaves the displaced
    pivots behind. *)
Fixpoint sweep (p : tools.Restaurant) (rest : list tools.Restaurant)
    : tools.Restaurant * list tools.Restaurant :=
  match rest with
  | [] => (p, [])
  | x :: xs =>
      if decide (tools.Weight p < tools.Weight x)
      then let '(p', xs') := sweep x xs in (p', p :: xs')
      else let '(p', xs') := sweep p xs in (p', x :: xs')
  end.

Fixpoint sweep_sort (n : nat) (l : list tools.Restaurant) : list tools.Restaurant :=
  match n, l with
  | S n', p :: rest => let '(p', rest') := sweep p rest in p' :: sweep_sort n' rest'
  | _, _ => l
  end.

(** *** Weights *)

(** The name-exact preference entry of a candidate, if any. *)
Definition name_entry (pref : option preference.Preferences) (name : string)
    : option Z :=
  p ← pref; preference.restaurantMap p !! name.

(** The category entry that the [k]-th [range] finds first in [typeStr]. *)
Definition category_hit (E : go.Env) (pref : option preference.Preferences)
    (k : nat) (typeStr : string) : option (string * Z) :=
  p ← pref;
  preference.first_category (go.range_order E k (preference.categoryMap p)) typeStr.

(** The recency penalty a table gives to a name: a Go map yields the zero
    value for a key it does not hold. *)
Definition penalty_for (penalties : gmap string Z) (name : string) : Z :=
  default 0 (penalties !! name).

(** The weight rule in the words of the specification, over an arithmetic
    [mul], [quo], [add]: the name-exact preference weight if present, else
    100; times the category weight, divided by 100, when there is a category
    weight and it is not 100; plus the recency penalty. *)
Definition spec_weight (mul quo add : Z → Z → Z) (nameWeight : option Z)
    (categoryWeight : option Z) (recencyPenalty : Z) : Z :=
  let weight := default 100 nameWeight in
  let weight :=
    match categoryWeight with
    | Some cw => if decide (cw = 100) then weight else quo (mul weight cw) 100
    | None => weight
    end in
  add weight recencyPenalty.

(** The weights of a preference table are Go [int]s. *)
Definition int_weights (pref : option preference.Preferences) : Prop :=
  ∀ p, pref = Some p →
    map_Forall (λ _ w, go.is_int w) (preference.restaurantMap p) ∧
    map_Forall (λ _ w, go.is_int w) (preference.categoryMap p).

(** No intermediate result of the weight rule leaves the range of [int]. *)
Definition no_overflow (nameWeight categoryWeight : option Z)
    (recencyPenalty : Z) : Prop :=
  (∀ cw, categoryWeight = Some cw → go.is_int (default 100 nameWeight * cw)) ∧
  go.is_int (spec_weight Z.mul Z.quot Z.add nameWeight categoryWeight recencyPenalty).

(** *** Recency *)

(** The penalty steps of the specification: 0, 1, 2, 3 days. *)
Definition step_penalty (days : Z) : Z :=
  match days with
  | 0 => -80
  | 1 => -50
  | 2 => -30
  | 3 => -15
  | _ => 0
  end.

(** The age in days of a record of [name] dated within the trailing three
    days: the whole days from 00:00 UTC of its date to now. *)
Definition age_in_window (E : go.Env) (name : string) (r : memory.MealRecord)
    : option Z :=
  if decide (memory.Restaurant r = name) then
    match memory.daysDiff E r with
    | Some d => if decide (0 <= d <= 3) then Some d else None
    | None => None
    end
  else None.

Definition window_ages (E : go.Env) (h : memory.History) (name : string) : list Z :=
  omap (age_in_window E name) (memory.Records h).

(** The most negative of a list of penalties, 0 when there is none. *)
Definition most_negative (penalties : list Z) : Z := foldr Z.min 0 penalties.

(** One day, in nanoseconds. *)
Definition Day_ns : Z := 24 * go.Hour_ns.

(** The calendar day of a date string: the number of days from 1970-01-01
    to the date it writes, where it writes one. *)
Definition calendar_day (s : string) : option Z :=
  match go.Parse_date s with
  | Some t => Some (t / Day_ns)
  | None => None
  end.

(** The age of a record in calendar days: the days from the date of the
    record to the date the wall clock shows. *)
Definition calendar_age (E : go.Env) (r : memory.MealRecord) : option Z :=
  match calendar_day (go.date (go.Now E)), calendar_day (memory.Date r) with
  | Some today, Some d => Some (today - d)
  | _, _ => None
  end.

(** The calendar ages of the records of [name], in the order of the ledger. *)
Definition calendar_ages (E : go.Env) (h : memory.History) (name : string)
    : list Z :=
  omap (λ r, if decide (memory.Restaurant r = name) then calendar_age E r
             else None)
       (memory.Records h).

(** The penalty in the words of the specification: the most negative step
    among the records of [name] of calendar age 0 to 3. *)
Definition claimed_penalty (E : go.Env) (h : memory.History) (name : string) : Z :=
  most_negative
    (step_penalty <$> filter (λ a, 0 <= a <= 3) (calendar_ages E h name)).

(** A clock in some time zone, with the parser of the [time] package:
    [lead] is the time from 00:00 UTC of the date the wall clock shows to
    now, that is the local time of day minus the offset of the zone. *)
Definition zoned_clock (E : go.Env) (lead : Z) : Prop :=
  (∀ s, go.Parse E s = go.Parse_date s)
  ∧ ∃ today, calendar_day (go.date (go.Now E)) = Some today
             ∧ go.instant (go.Now E) = today * Day_ns + lead.

(** The days that lie between 00:00 UTC of a date [a] calendar days back and
    now, counted toward zero. *)
Definition counted_days (lead a : Z) : Z := Z.quot (a * Day_ns + lead) Day_ns.

(** *** Dialogue *)

Definition is_PlacesCall (c : agent.Call) : bool :=
  match c with
  | agent.PlacesCall _ _ _ _ => true
  | _ => false
  end.

Definition is_LLMCall (c : agent.Call) : bool :=
  match c with
  | agent.LLMCall _ => true
  | _ => false
  end.

(** The recommendation pipeline ran: the places provider was asked. *)
Definition pipeline_ran (cs : list agent.Call) : bool := existsb is_PlacesCall cs.

(** The language model was invoked. *)
Definition llm_invoked (cs : list agent.Call) : bool := existsb is_LLMCall cs.

(** The provider calls made between two states of the system. *)
Definition new_calls (before after : agent.Sys) : list agent.Call :=
  drop (length (agent.calls before)) (agent.calls after).

(** The input names no ordinal that [orderPatterns] resolves. *)
Definition no_ordinal (last : list tools.Restaurant) (input : string) : Prop :=
  find (λ p : string * nat,
          go.Contains input p.1 && bool_decide (p.2 < length last)%nat)
       agent.orderPatterns = None.

(** The input contains no name of a last-offered candidate. *)
Definition no_offered_name (last : list tools.Restaurant) (input : string) : Prop :=
  Forall (λ r, go.Contains input (tools.Name r) = false) last.

(** The three phrases [extractSelection] takes for a bare confirmation. *)
Definition bare_confirmation (input : string) : bool :=
  go.Contains input "就这个" || go.Contains input "就它" || go.Contains input "好的".

(** The conversation state of the agent a scheduler points to, replaced. *)
Definition with_conversation (ms : list agent.Message) (ex : list string)
    (last : list tools.Restaurant) (sch : agent.Scheduler) : agent.Scheduler :=
  let s := agent.agent_ sch in
  let a := agent.self s in
  agent.with_agent
    (agent.with_self
       (agent.mkMealAgent (agent.cfg a) (agent.history a) (agent.pref a) ms ex last)
       s)
    sch.


(** *** Further vocabulary *)

(** The candidates that pass the two blacklists and the keyword exclusions. *)
Definition eligible (a : agent.MealAgent) (found : list tools.Restaurant)
    : list tools.Restaurant :=
  filter (λ r, (tools.Name r ∉ config.Blacklist (agent.cfg a))
               ∧ (tools.Name r ∉ config.TempExclude (agent.cfg a))
               ∧ Forall (λ kw, go.Contains (tools.Type_ r) kw = false
                               ∧ go.Contains (tools.Name r) kw = false)
                        (agent.tempExclude a))
         found.


(** The clock and the date parser agree: today's date, parsed, lies less
    than a day from now. *)
Definition clock_consistent (E : go.Env) : Prop :=
  ∃ t, go.Parse E (go.date (go.Now E)) = Some t
       ∧ go.whole_days (go.Sub (go.instant (go.Now E)) t) = 0.


(** The elements of a list, each at its first occurrence. *)
Fixpoint first_occurrences (l : list string) : list string :=
  match l with
  | [] => []
  | x :: l' => x :: filter (λ y, y ≠ x) (first_occurrences l')
  end.

(** Sorting by exchange over any key: the two nested loops of the sort in
    [GetFrequent], for any element type and integer key, and the list
    recursion they compute. *)
Definition exchange_step {A} (key : A → Z) (i j : nat) (l : list A) : list A :=
  match l !! i, l !! j with
  | Some a, Some b =>
      if decide (key a < key b) then <[i := b]> (<[j := a]> l) else l
  | _, _ => l
  end.

Definition exchange_inner {A} (key : A → Z) (i : nat) (l : list A) : list A :=
  foldl (λ acc j, exchange_step key i j acc) l (seq (S i) (length l - S i)).

Definition exchange_sort {A} (key : A → Z) (l : list A) : list A :=
  foldl (λ acc i, exchange_inner key i acc) l (seq 0 (length l - 1)).

Definition key_desc {A} (key : A → Z) (a b : A) : Prop := key b <= key a.

Fixpoint carry {A} (key : A → Z) (p : A) (rest : list A) : A * list A :=
  match rest with
  | [] => (p, [])
  | x :: xs =>
      if decide (key p < key x)
      then let '(p', xs') := carry key x xs in (p', p :: xs')
      else let '(p', xs') := carry key p xs in (p', x :: xs')
  end.

Fixpoint carry_sort {A} (key : A → Z) (n : nat) (l : list A) : list A :=
  match n, l with
  | S n', p :: rest =>
      let '(p', rest') := carry key p rest in p' :: carry_sort key n' rest'
  | _, _ => l
  end.

(** The number of records of a restaurant. *)
Definition visits (h : memory.History) (name : string) : Z :=
  Z.of_nat (length (filter (λ r, memory.Restaurant r = name) (memory.Records h))).

(** ** A concrete world

    Noon of 2024-01-15 UTC on a machine whose local time is UTC, three
    candidates around, and one meal on record. *)

Definition ex_reading : go.Reading :=
  {| go.instant := 1705276800000000000 + 12 * go.Hour_ns;
     go.Hour := 12;
     go.date := "2024-01-15";
     go.hhmm := "12:00";
     (* the program asks for 7 days ago only *)
     go.date_days_ago := λ _, "2024-01-08" |}.

(** [%d] on a plain decimal numeral. *)
Definition ex_Sscanf_d (s : string) : Z :=
  match NilZero.int_of_string s with
  | Some i => Z.of_int i
  | None => 0
  end.

Definition ex_env_writing (outcome : go.WriteOutcome) : go.Env :=
  {| go.Now := ex_reading;
     go.Parse := go.Parse_date;
     go.Sscanf_d := ex_Sscanf_d;
     go.WriteFile := outcome;
     go.range_order := λ _ m, map_to_list m |}.

Definition ex_env : go.Env := ex_env_writing go.Written.

Definition candidate (name type : string) (weight : Z) : tools.Restaurant :=
  tools.mkRestaurant name type "" "" "" "" "" weight "".

Definition ex_hotpot : tools.Restaurant := candidate "A" "餐饮服务;中餐厅;火锅" 0.
Definition ex_noodle : tools.Restaurant := candidate "B" "餐饮服务;快餐厅;面馆" 0.
Definition ex_sichuan : tools.Restaurant := candidate "C" "餐饮服务;中餐厅;川菜" 0.

Definition ex_weather : tools.WeatherInfo :=
  tools.mkWeatherInfo "8" "6" "晴" "北风" "2" "40".

Definition ex_world : agent.World :=
  {| agent.env := ex_env;
     agent.GetWeather := λ _, go.Ok ex_weather;
     agent.SearchNearby := λ _ _ _ _, go.Ok [ex_hotpot; ex_noodle; ex_sichuan];
     agent.LLM_Chat := λ _, go.Ok "推荐：C、B" |}.



Definition ex_cfg : config.Config :=
  config.mkConfig (config.mkLocation "31.23" "121.47" "上海" 1000) [] [].

(** "A" is permanently excluded, Sichuan cuisine is favoured. *)
Definition ex_pref : preference.Preferences :=
  preference.mkPreferences {[ "A" := 0 ]} {[ "川菜" := 150 ]}.

(** "A" was eaten today. *)
Definition ex_history : memory.History :=
  memory.mkHistory
    [memory.mkMealRecord "2024-01-15" "lunch" "A" "火锅" 0 ""]
    "data/history.json".

Definition ex_agent : agent.MealAgent :=
  agent.mkMealAgent ex_cfg ex_history (Some ex_pref) [] [] [].

Definition ex_sys : agent.Sys := agent.mkSys ex_agent ∅ [].

(** The agent after it has offered "B" and "C". *)
Definition ex_sys_two_offered : agent.Sys :=
  agent.with_self (agent.set_lastRestaurants [ex_noodle; ex_sichuan] ex_agent) ex_sys.

(** The agent with every candidate of [ex_world] on the blacklist. *)
Definition ex_sys_all_blacklisted : agent.Sys :=
  agent.with_self
    (agent.set_cfg
       (config.mkConfig (config.location ex_cfg) ["A"; "B"; "C"] []) ex_agent)
    ex_sys.

Definition ex_scheduler : agent.Scheduler :=
  agent.mkScheduler ex_sys "12:00" "18:00" [].

(** Three ranked candidates, the first two of equal weight. *)
Definition ex_tie : list tools.Restaurant :=
  [ candidate "A" "" 100; candidate "B" "" 100; candidate "C" "" 150 ].

(** The agent without a preference table. *)
Definition ex_agent_no_pref : agent.MealAgent :=
  agent.mkMealAgent ex_cfg ex_history None [] [] [].


(** "B" was eaten three days ago and again today. *)
Definition ex_history_twice : memory.History :=
  memory.mkHistory
    [ memory.mkMealRecord "2024-01-12" "lunch" "B" "面馆" 0 "";
      memory.mkMealRecord "2024-01-15" "lunch" "B" "面馆" 0 "" ]
    "data/history.json".


(** The world of [ex_world] on a read-only file system. *)
Definition ex_world_read_only : agent.World :=
  {| agent.env := ex_env_writing (go.Refused "read-only file system");
     agent.GetWeather := agent.GetWeather ex_world;
     agent.SearchNearby := agent.SearchNearby ex_world;
     agent.LLM_Chat := agent.LLM_Chat ex_world |}.


(** The world of [ex_world] with the language model down. *)
Definition ex_world_llm_down : agent.World :=
  {| agent.env := ex_env;
     agent.GetWeather := agent.GetWeather ex_world;
     agent.SearchNearby := agent.SearchNearby ex_world;
     agent.LLM_Chat := λ _, go.Err "503" |}.

(** The environment of [ex_env] with every range in the opposite order. *)
Definition ex_env_reversed : go.Env :=
  {| go.Now := ex_reading;
     go.Parse := go.Parse_date;
     go.Sscanf_d := ex_Sscanf_d;
     go.WriteFile := go.Written;
     go.range_order := λ _ m, reverse (map_to_list m) |}.

(** Two categories of different weight that both occur in one type string. *)
Definition ex_pref_overlap : preference.Preferences :=
  preference.mkPreferences ∅ {[ "中餐厅" := 80; "川菜" := 150 ]}.


(** 18:00 of 2024-01-15 in Los Angeles (UTC-8): 02:00 UTC of the 16th. *)
Definition ex_reading_los_angeles : go.Reading :=
  {| go.instant := 1705276800000000000 + 26 * go.Hour_ns;
     go.Hour := 18;
     go.date := "2024-01-15";
     go.hhmm := "18:00";
     go.date_days_ago := λ _, "2024-01-08" |}.

Definition ex_env_los_angeles : go.Env :=
  {| go.Now := ex_reading_los_angeles;
     go.Parse := go.Parse_date;
     go.Sscanf_d := ex_Sscanf_d;
     go.WriteFile := go.Written;
     go.range_order := λ _ m, map_to_list m |}.

(** 07:00 of 2024-01-15 in Shanghai (UTC+8): 23:00 UTC of the 14th. *)
Definition ex_reading_shanghai : go.Reading :=
  {| go.instant := 1705276800000000000 - 1 * go.Hour_ns;
     go.Hour := 7;
     go.date := "2024-01-15";
     go.hhmm := "07:00";
     go.date_days_ago := λ _, "2024-01-08" |}.

Definition ex_env_shanghai : go.Env :=
  {| go.Now := ex_reading_shanghai;
     go.Parse := go.Parse_date;
     go.Sscanf_d := ex_Sscanf_d;
     go.WriteFile := go.Written;
     go.range_order := λ _ m, map_to_list m |}.

(** "A" was eaten on the 14th. *)
Definition ex_history_yesterday : memory.History :=
  memory.mkHistory
    [memory.mkMealRecord "2024-01-14" "dinner" "A" "火锅" 0 ""]
    "data/history.json".

(** * Properties *)

(** ** Go integers and strings *)

Lemma wrap64_id z : go.is_int z → go.wrap64 z = z.
Proof.
  unfold go.is_int, go.wrap64. intros Hz.
  rewrite Z.mod_small by lia. lia.
Qed.

Lemma wrap64_is_int z : go.is_int (go.wrap64 z).
Proof.
  unfold go.is_int, go.wrap64.
  pose proof (Z.mod_pos_bound (z + 2 ^ 63) (2 ^ 64)). lia.
Qed.

Lemma quot_100_is_int z : go.is_int z → go.is_int (Z.quot z 100).
Proof.
  unfold go.is_int. intros Hz.
  destruct (Z.le_gt_cases 0 z) as [Hpos|Hneg].
  - pose proof (Z.quot_pos z 100 Hpos). pose proof (Z.quot_le_upper_bound z 100 z).
    assert (Z.quot z 100 <= z) by (apply Z.quot_le_upper_bound; lia). lia.
  - assert (Hopp : Z.quot z 100 = - Z.quot (- z) 100)
      by (rewrite Z.quot_opp_l; lia).
    assert (0 <= Z.quot (- z) 100) by (apply Z.quot_pos; lia).
    assert (Z.quot (- z) 100 <= - z) by (apply Z.quot_le_upper_bound; lia).
    lia.
Qed.

(** ** The sort *)

Lemma sweep_length p rest : length (sweep p rest).2 = length rest.
Proof.
  revert p. induction rest as [|x xs IH]; intros p; simpl; [done|].
  case_decide.
  - specialize (IH x). destruct (sweep x xs); simpl in *. by rewrite IH.
  - specialize (IH p). destruct (sweep p xs); simpl in *. by rewrite IH.
Qed.

Lemma sweep_perm p rest :
  (sweep p rest).1 :: (sweep p rest).2 ≡ₚ p :: rest.
Proof.
  revert p. induction rest as [|x xs IH]; intros p; simpl; [done|].
  case_decide.
  - specialize (IH x). destruct (sweep x xs) as [p' xs']; simpl in *.
    etrans; [apply perm_swap|]. by apply perm_skip.
  - specialize (IH p). destruct (sweep p xs) as [p' xs']; simpl in *.
    etrans; [apply perm_swap|]. etrans; [apply perm_skip, IH|]. apply perm_swap.
Qed.

Lemma sweep_max p rest :
  tools.Weight p <= tools.Weight (sweep p rest).1 ∧
  Forall (by_weight_desc (sweep p rest).1) (sweep p rest).2.
Proof.
  revert p. induction rest as [|x xs IH]; intros p; simpl.
  - split; [lia | constructor].
  - case_decide.
    + destruct (IH x) as [Hx Hall]. destruct (sweep x xs) as [p' xs']; simpl in *.
      split; [lia|]. constructor; [unfold by_weight_desc; lia | done].
    + destruct (IH p) as [Hp Hall]. destruct (sweep p xs) as [p' xs']; simpl in *.
      split; [lia|]. constructor; [unfold by_weight_desc; lia | done].
Qed.

Lemma sweep_sort_perm n l : sweep_sort n l ≡ₚ l.
Proof.
  revert l. induction n as [|n IH]; intros [|p rest]; simpl; try done.
  pose proof (sweep_perm p rest) as Hp.
  destruct (sweep p rest) as [p' rest']; simpl in *.
  by rewrite IH.
Qed.

Lemma sweep_sort_sorted n l :
  length l = S n → StronglySorted by_weight_desc (sweep_sort n l).
Proof.
  revert l. induction n as [|n IH]; intros [|p rest] Hlen; simpl in *; try done.
  - destruct rest; [|done]. repeat constructor.
  - pose proof (sweep_max p rest) as [_ Hall].
    pose proof (sweep_length p rest) as Hl.
    destruct (sweep p rest) as [p' rest']; simpl in *.
    constructor.
    + apply IH. lia.
    + by rewrite sweep_sort_perm.
Qed.

(** The inner loop at pivot position [length pre], after it has walked over
    [seen], acts on the remaining [rest] as [sweep] does. *)
Lemma inner_loop_sweep pre p seen rest :
  foldl (λ acc j, tools.compare_swap (length pre) j acc)
        (pre ++ p :: seen ++ rest)
        (seq (S (length pre + length seen)) (length rest))
  = pre ++ (sweep p rest).1 :: seen ++ (sweep p rest).2.
Proof.
  revert p seen. induction rest as [|x xs IH]; intros p seen; simpl; [done|].
  assert (Hi : (pre ++ p :: seen ++ x :: xs) !! length pre = Some p)
    by (by rewrite list_lookup_middle).
  assert (Hj : (pre ++ p :: seen ++ x :: xs) !! S (length pre + length seen) = Some x).
  { rewrite lookup_app_r by lia.
    replace (S (length pre + length seen) - length pre)%nat
      with (S (length seen)) by lia.
    simpl. by rewrite list_lookup_middle. }
  unfold tools.compare_swap at 2. rewrite Hi, Hj.
  replace (S (S (length pre + length seen)))
    with (S (length pre + length (seen ++ [p]))) by (rewrite length_app; simpl; lia).
  replace (S (length pre + length seen))
    with (length pre + S (length seen))%nat by lia.
  case_decide.
  - rewrite (insert_app_r pre (p :: seen ++ x :: xs) (S (length seen)) p). simpl.
    rewrite (insert_app_r_alt seen (x :: xs) (length seen) p) by lia.
    rewrite Nat.sub_diag. simpl.
    rewrite (insert_app_r_alt pre (p :: seen ++ p :: xs) (length pre) x) by lia.
    rewrite Nat.sub_diag. simpl.
    replace (pre ++ x :: seen ++ p :: xs) with (pre ++ x :: (seen ++ [p]) ++ xs)
      by (by rewrite <- (assoc_L (++) seen)).
    rewrite IH. destruct (sweep x xs) as [p' xs']; simpl.
    by rewrite <- (assoc_L (++) seen).
  - replace (pre ++ p :: seen ++ x :: xs) with (pre ++ p :: (seen ++ [x]) ++ xs)
      by (by rewrite <- (assoc_L (++) seen)).
    replace (length (seen ++ [p])) with (length (seen ++ [x]))
      by (by rewrite !length_app).
    rewrite IH. destruct (sweep p xs) as [p' xs']; simpl.
    by rewrite <- (assoc_L (++) seen).
Qed.

Lemma SortByWeight_inner_sweep pre p rest :
  tools.SortByWeight_inner (length pre) (pre ++ p :: rest)
  = pre ++ (sweep p rest).1 :: (sweep p rest).2.
Proof.
  unfold tools.SortByWeight_inner.
  replace (length (pre ++ p :: rest) - S (length pre))%nat with (length rest)
    by (rewrite length_app; simpl; lia).
  pose proof (inner_loop_sweep pre p [] rest) as H. simpl in H.
  by rewrite Nat.add_0_r in H.
Qed.

Lemma outer_loop_sweep_sort n pre rest :
  length rest = S n →
  foldl (λ acc i, tools.SortByWeight_inner i acc) (pre ++ rest) (seq (length pre) n)
  = pre ++ sweep_sort n rest.
Proof.
  revert pre rest. induction n as [|n IH]; intros pre [|p rest] Hlen;
    simpl in *; try done.
  rewrite SortByWeight_inner_sweep.
  pose proof (sweep_length p rest) as Hl.
  destruct (sweep p rest) as [p' rest']; simpl in *.
  replace (pre ++ p' :: rest') with ((pre ++ [p']) ++ rest')
    by (by rewrite <- (assoc_L (++) pre)).
  replace (S (length pre)) with (length (pre ++ [p']))
    by (rewrite length_app; simpl; lia).
  rewrite IH by lia. by rewrite <- (assoc_L (++) pre).
Qed.

(** [SortByWeight] computes what the recursion on the list computes. *)
Lemma SortByWeight_sweep_sort rs :
  tools.SortByWeight rs = sweep_sort (length rs - 1) rs.
Proof.
  destruct rs as [|p rest]; [done|].
  unfold tools.SortByWeight.
  pose proof (outer_loop_sweep_sort (length rest) [] (p :: rest)) as H.
  simpl in *. rewrite Nat.sub_0_r. by apply H.
Qed.

Lemma SortByWeight_perm rs : tools.SortByWeight rs ≡ₚ rs.
Proof. rewrite SortByWeight_sweep_sort. apply sweep_sort_perm. Qed.

Lemma SortByWeight_sorted rs : StronglySorted by_weight_desc (tools.SortByWeight rs).
Proof.
  rewrite SortByWeight_sweep_sort.
  destruct rs as [|p rest]; [constructor|].
  apply sweep_sort_sorted. simpl. lia.
Qed.

(** C3, as amended.  [SortByWeight] orders the candidates by weight
    descending and keeps every candidate: its output is a rearrangement of
    its input in which no weight is followed by a greater one; the
    relative order of candidates of equal weight is not promised. *)
Theorem SortByWeight_descending rs :
  StronglySorted by_weight_desc (tools.SortByWeight rs) ∧
  tools.SortByWeight rs ≡ₚ rs.
Proof. split; [apply SortByWeight_sorted | apply SortByWeight_perm]. Qed.

(** C3 fails as stated: on "A" and "B" of weight 100 followed by "C" of
    weight 150, the first pass exchanges "A" with "C", which moves "A"
    behind "B": the output is C, B, A, so the two candidates of weight 100
    have changed places and the sort is not stable. *)
Lemma SortByWeight_swaps_a_tie :
  tools.Name <$> tools.SortByWeight ex_tie = ["C"; "B"; "A"] ∧
  ¬ (StronglySorted by_weight_desc (tools.SortByWeight ex_tie) ∧
     stable_wrt ex_tie (tools.SortByWeight ex_tie)).
Proof.
  split; [reflexivity|].
  intros [_ Hstable]. specialize (Hstable 100).
  vm_compute in Hstable. discriminate Hstable.
Qed.

(** ** The recency penalties *)

Lemma penalty_of_days_step d : 0 <= d <= 3 → memory.penalty_of_days d = step_penalty d.
Proof.
  intros Hd. assert (d = 0 ∨ d = 1 ∨ d = 2 ∨ d = 3) as [->|[->|[->| ->]]] by lia;
    reflexivity.
Qed.

Lemma penalty_of_days_early d : d < 0 → memory.penalty_of_days d = 0.
Proof.
  intros Hd. unfold memory.penalty_of_days.
  destruct (Z.eqb_spec d 0); [lia|]. destruct (Z.eqb_spec d 1); [lia|].
  destruct (Z.eqb_spec d 2); [lia|]. destruct (Z.eqb_spec d 3); [lia|]. done.
Qed.

Lemma step_penalty_range d : 0 <= d <= 3 → -80 <= step_penalty d <= -15.
Proof.
  intros Hd. assert (d = 0 ∨ d = 1 ∨ d = 2 ∨ d = 3) as [->|[->|[->| ->]]] by lia;
    simpl; lia.
Qed.

Lemma most_negative_range l :
  Forall (λ p, -80 <= p) l → -80 <= most_negative l <= 0.
Proof.
  induction 1 as [|p l Hp _ IH]; simpl; lia.
Qed.

(** One iteration of the loop, seen from one name. *)
Lemma penalties_step_for E name acc r :
  penalty_for acc name <= 0 →
  penalty_for (memory.penalties_step E acc r) name
  = match age_in_window E name r with
    | Some d => Z.min (step_penalty d) (penalty_for acc name)
    | None => penalty_for acc name
    end.
Proof.
  intros Hacc. unfold memory.penalties_step, age_in_window, penalty_for in *.
  destruct (memory.daysDiff E r) as [d|] eqn:Hd; [|by case_decide].
  destruct (decide (3 < d)) as [Hlate|Hin].
  { destruct (decide (memory.Restaurant r = name)); [|done].
    destruct (decide (0 <= d <= 3)); [lia|done]. }
  destruct (decide (memory.Restaurant r = name)) as [<-|Hne].
  - destruct (decide (0 <= d <= 3)) as [Hw|Hw].
    + rewrite (penalty_of_days_step d Hw).
      pose proof (step_penalty_range d Hw).
      destruct (acc !! memory.Restaurant r) as [e|] eqn:He; simpl in *.
      * destruct (decide (step_penalty d < e));
          [rewrite lookup_insert_eq|rewrite He]; simpl; lia.
      * rewrite lookup_insert_eq. simpl. lia.
    + rewrite (penalty_of_days_early d) by lia.
      destruct (acc !! memory.Restaurant r) as [e|] eqn:He; simpl in *.
      * destruct (decide (0 < e)); [lia|]. by rewrite He.
      * by rewrite lookup_insert_eq.
  - destruct (acc !! memory.Restaurant r) as [e|] eqn:He.
    + destruct (decide (memory.penalty_of_days d < e)); [|done].
      by rewrite lookup_insert_ne.
    + by rewrite lookup_insert_ne.
Qed.

Lemma most_negative_nonpos l : most_negative l <= 0.
Proof. induction l; simpl; lia. Qed.

Lemma most_negative_cons p l : most_negative (p :: l) = Z.min p (most_negative l).
Proof. reflexivity. Qed.

Lemma penalties_loop_for E name l acc :
  penalty_for acc name <= 0 →
  penalty_for (foldl (memory.penalties_step E) acc l) name
  = Z.min (penalty_for acc name)
          (most_negative (step_penalty <$> omap (age_in_window E name) l)).
Proof.
  revert acc. induction l as [|r l IH]; intros acc Hacc.
  - simpl. lia.
  - pose proof (penalties_step_for E name acc r Hacc) as Hstep.
    change (foldl (memory.penalties_step E) acc (r :: l))
      with (foldl (memory.penalties_step E) (memory.penalties_step E acc r) l).
    change (omap (age_in_window E name) (r :: l))
      with (match age_in_window E name r with
            | Some d => d :: omap (age_in_window E name) l
            | None => omap (age_in_window E name) l
            end).
    destruct (age_in_window E name r) as [d|].
    + rewrite fmap_cons, most_negative_cons.
      rewrite IH by lia. lia.
    + rewrite IH by lia. lia.
Qed.

Lemma penalty_for_GetAllPenalties E h name :
  penalty_for (memory.GetAllPenalties E h) name
  = most_negative (step_penalty <$> window_ages E h name).
Proof.
  unfold memory.GetAllPenalties, window_ages.
  rewrite penalties_loop_for by (unfold penalty_for; by rewrite lookup_empty).
  unfold penalty_for at 1. rewrite lookup_empty. simpl.
  pose proof (most_negative_nonpos
                (step_penalty <$> omap (age_in_window E name) (memory.Records h))).
  lia.
Qed.

Lemma most_negative_le l x : x ∈ l → most_negative l <= x.
Proof.
  induction l as [|y l IH]; [by intros ?%elem_of_nil|].
  rewrite most_negative_cons. intros [->|Hin]%elem_of_cons; [lia|].
  specialize (IH Hin). lia.
Qed.

Lemma most_negative_attained l :
  Forall (λ x, x <= 0) l → l ≠ [] → most_negative l ∈ l.
Proof.
  induction 1 as [|y l Hy Hl IH]; [done|]. intros _.
  rewrite most_negative_cons.
  destruct l as [|z l].
  - simpl. rewrite Z.min_l by lia. left.
  - destruct (Z.min_spec y (most_negative (z :: l))) as [[_ ->]|[_ ->]].
    + left.
    + right. by apply IH.
Qed.



Lemma penalty_for_range E h name :
  -80 <= penalty_for (memory.GetAllPenalties E h) name <= 0.
Proof.
  rewrite penalty_for_GetAllPenalties. apply most_negative_range.
  apply Forall_fmap, Forall_forall. intros d Hd. simpl.
  unfold window_ages in Hd. apply list_elem_of_omap in Hd as (r & _ & Hr).
  unfold age_in_window in Hr.
  destruct (decide (memory.Restaurant r = name)); [|done].
  destruct (memory.daysDiff E r) as [d'|]; [|done].
  destruct (decide (0 <= d' <= 3)) as [Hw|]; [|done].
  injection Hr as <-. pose proof (step_penalty_range d' Hw). lia.
Qed.

(** *** The penalty table and the calendar *)

Lemma Parse_date_midnight s t :
  go.Parse_date s = Some t → ∃ d, t = d * Day_ns.
Proof.
  unfold go.Parse_date.
  repeat match goal with
         | |- context [match ?x with _ => _ end] =>
             destruct x; try discriminate
         end.
  intros [= <-]. eexists. unfold Day_ns. by rewrite Z.mul_assoc.
Qed.

Lemma Day_ns_value : Day_ns = 86400000000000.
Proof. reflexivity. Qed.

Lemma calendar_day_Some s t :
  go.Parse_date s = Some t →
  ∃ d, calendar_day s = Some d ∧ t = d * Day_ns.
Proof.
  intros Hp. destruct (Parse_date_midnight s t Hp) as [d ->].
  exists d. unfold calendar_day. rewrite Hp. split; [|done].
  f_equal. apply Z.div_mul. by rewrite Day_ns_value.
Qed.

Lemma calendar_day_None s : go.Parse_date s = None → calendar_day s = None.
Proof. unfold calendar_day. by intros ->. Qed.

Lemma whole_days_Sub_window x y :
  let q := go.whole_days (go.Sub x y) in
  let c := Z.quot (x - y) Day_ns in
  (0 <= q <= 3 ↔ 0 <= c <= 3) ∧ (0 <= c <= 3 → q = c).
Proof.
  cbv zeta. unfold go.whole_days, go.Sub, go.maxDuration, go.minDuration.
  change (24 * go.Hour_ns) with 86400000000000. rewrite Day_ns_value.
  generalize (x - y). intros z.
  destruct (Z_le_gt_dec (2 ^ 63) z) as [Hbig|Hbig].
  - rewrite Z.min_l, Z.max_r by lia.
    assert (Z.quot (2 ^ 63 - 1) 86400000000000 = 106751) as -> by reflexivity.
    assert (4 <= Z.quot z 86400000000000).
    { change 4 with (Z.quot (4 * 86400000000000) 86400000000000).
      apply Z.quot_le_mono; lia. }
    lia.
  - destruct (Z_lt_ge_dec z (- 2 ^ 63)) as [Hsmall|Hsmall].
    + rewrite Z.min_r, Z.max_l by lia.
      assert (Z.quot (- 2 ^ 63) 86400000000000 = -106751) as -> by reflexivity.
      assert (Z.quot z 86400000000000 <= -1).
      { change (-1) with (Z.quot (- 86400000000000) 86400000000000).
        apply Z.quot_le_mono; lia. }
      lia.
    + rewrite Z.min_r, Z.max_r by lia. tauto.
Qed.

Lemma counted_days_aligned lead a :
  0 <= lead < Day_ns → 0 <= a → counted_days lead a = a.
Proof.
  intros Hlead Ha. unfold counted_days. rewrite Day_ns_value in *.
  rewrite Z.quot_div_nonneg by lia.
  rewrite Z.div_add_l by lia. rewrite Z.div_small by lia. lia.
Qed.

Lemma counted_days_late lead a :
  Day_ns <= lead → 0 <= a → 1 <= counted_days lead a.
Proof.
  intros Hlead Ha. unfold counted_days. rewrite Day_ns_value in *.
  change 1 with (Z.quot 86400000000000 86400000000000).
  apply Z.quot_le_mono; lia.
Qed.

Lemma counted_days_early lead :
  - Day_ns < lead < 0 → counted_days lead 1 = 0.
Proof.
  intros Hlead. unfold counted_days. rewrite Day_ns_value in *.
  apply Z.quot_small. lia.
Qed.

Lemma age_in_window_calendar E lead name r :
  zoned_clock E lead →
  age_in_window E name r
  = match (if decide (memory.Restaurant r = name) then calendar_age E r
           else None) with
    | Some a => if decide (0 <= counted_days lead a <= 3)
                then Some (counted_days lead a) else None
    | None => None
    end.
Proof.
  intros (Hparse & today & Htoday & Hnow).
  unfold age_in_window, calendar_age, memory.daysDiff.
  destruct (decide (memory.Restaurant r = name)); [|done].
  rewrite Htoday, Hparse.
  destruct (go.Parse_date (memory.Date r)) as [t|] eqn:Hp.
  - destruct (calendar_day_Some _ _ Hp) as (d & -> & ->).
    rewrite Hnow. unfold counted_days.
    destruct (whole_days_Sub_window (today * Day_ns + lead) (d * Day_ns))
      as [Hiff Heq]. cbv zeta in Hiff, Heq.
    replace ((today - d) * Day_ns + lead)
      with (today * Day_ns + lead - d * Day_ns) by lia.
    destruct (decide (0 <= Z.quot (today * Day_ns + lead - d * Day_ns) Day_ns <= 3))
      as [Hin|Hout].
    + rewrite decide_True by tauto. f_equal. by apply Heq.
    + rewrite decide_False by tauto. done.
  - by rewrite (calendar_day_None _ Hp).
Qed.

Lemma window_ages_calendar E lead h name :
  zoned_clock E lead →
  window_ages E h name
  = filter (λ d, 0 <= d <= 3) (counted_days lead <$> calendar_ages E h name).
Proof.
  intros Hclock. unfold window_ages, calendar_ages.
  induction (memory.Records h) as [|r l IH]; [done|]. csimpl.
  rewrite (age_in_window_calendar E lead name r Hclock), IH.
  destruct (if decide (memory.Restaurant r = name) then calendar_age E r else None)
    as [a|]; [|done].
  csimpl. rewrite filter_cons.
  by destruct (decide (0 <= counted_days lead a <= 3)).
Qed.

Lemma most_negative_lower lo l :
  lo <= 0 → Forall (λ p, lo <= p) l → lo <= most_negative l.
Proof.
  intros Hlo Hall. induction Hall as [|p l Hp _ IH]; simpl; [done|].
  unfold most_negative in *. simpl. lia.
Qed.

(** C5.  On a clock in any time zone, [GetAllPenalties] counts the age of
    a record from 00:00 UTC of its date and not from the date the wall clock
    shows: for every restaurant the penalty of the table is the most
    negative of the steps -80, -50, -30, -15 at the days counted, toward
    zero, from 00:00 UTC of the date of each of its records to now, where
    these are 0 to 3.  It is the penalty by calendar age, a record [d] days
    old counting the step of [d] and records older than three days
    nothing, where the wall clock shows the date of UTC and no record of the
    restaurant is dated after today.  Where the wall clock shows a date
    behind that of UTC (an evening west of Greenwich) a meal of today
    never counts -80; where it shows a date ahead of that of UTC (a morning
    east of Greenwich) a meal of yesterday counts -80. *)
Theorem GetAllPenalties_counts_from_UTC_midnight E lead h name :
  zoned_clock E lead →
  let penalty := penalty_for (memory.GetAllPenalties E h) name in
  let ages := calendar_ages E h name in
  penalty
  = most_negative
      (step_penalty <$> filter (λ d, 0 <= d <= 3) (counted_days lead <$> ages))
  ∧ (0 <= lead < Day_ns → Forall (λ a, 0 <= a) ages →
     penalty = claimed_penalty E h name)
  ∧ (Day_ns <= lead → Forall (λ a, 0 <= a) ages → -50 <= penalty)
  ∧ (- Day_ns < lead < 0 → 1 ∈ ages → penalty = -80).
Proof.
  intros Hclock penalty ages.
  assert (Hpen : penalty
                 = most_negative
                     (step_penalty <$> filter (λ d, 0 <= d <= 3)
                                         (counted_days lead <$> ages))).
  { subst penalty ages.
    by rewrite penalty_for_GetAllPenalties, (window_ages_calendar E lead). }
  split_and!; [done | | |].
  - intros Hlead Hpast. rewrite Hpen. unfold claimed_penalty. fold ages.
    do 3 f_equal. rewrite <- (list_fmap_id ages) at 2.
    apply Forall_fmap_ext. eapply Forall_impl; [exact Hpast|]. simpl.
    intros a Ha. by apply counted_days_aligned.
  - intros Hlead Hpast. rewrite Hpen. apply most_negative_lower; [lia|].
    apply Forall_fmap, Forall_forall. intros d Hd. simpl.
    apply list_elem_of_filter in Hd as [Hwin Hd].
    apply list_elem_of_fmap in Hd as (a & -> & Ha).
    rewrite Forall_forall in Hpast.
    pose proof (counted_days_late lead a Hlead (Hpast a Ha)) as Hone.
    assert (Hcase : counted_days lead a = 1 ∨ counted_days lead a = 2
                    ∨ counted_days lead a = 3) by lia.
    destruct Hcase as [-> | [-> | ->]]; simpl; lia.
  - intros Hlead Hin.
    assert (Hle : penalty <= -80).
    { rewrite Hpen. apply most_negative_le.
      apply list_elem_of_fmap. exists 0. split; [done|].
      apply list_elem_of_filter. split; [lia|].
      apply list_elem_of_fmap. exists 1. split; [|done].
      symmetry. by apply counted_days_early. }
    pose proof (penalty_for_range E h name) as Hrange. fold penalty in Hrange. lia.
Qed.

Lemma GetAllPenalties_counts_from_UTC_midnight_witness :
  penalty_for (memory.GetAllPenalties ex_env_los_angeles ex_history) "A" = -50.
Proof.
  assert (H : zoned_clock ex_env_los_angeles (26 * go.Hour_ns)).
  { split; [reflexivity|]. exists 19737. split; vm_compute; reflexivity. }
  rewrite (proj1 (GetAllPenalties_counts_from_UTC_midnight
                    ex_env_los_angeles (26 * go.Hour_ns) ex_history "A" H)).
  vm_compute. reflexivity.
Defined.

(** A meal of today, at 18:00 in Los Angeles: the table says -50 where the
    steps of the specification say -80. *)
Lemma today_in_Los_Angeles :
  calendar_ages ex_env_los_angeles ex_history "A" = [0]
  ∧ claimed_penalty ex_env_los_angeles ex_history "A" = -80
  ∧ penalty_for (memory.GetAllPenalties ex_env_los_angeles ex_history) "A" = -50.
Proof. vm_compute. done. Qed.

(** A meal of yesterday, at 07:00 in Shanghai: the table says -80 where the
    steps of the specification say -50. *)
Lemma yesterday_in_Shanghai :
  calendar_ages ex_env_shanghai ex_history_yesterday "A" = [1]
  ∧ claimed_penalty ex_env_shanghai ex_history_yesterday "A" = -50
  ∧ penalty_for (memory.GetAllPenalties ex_env_shanghai ex_history_yesterday) "A"
    = -80.
Proof. vm_compute. done. Qed.

(** The meal that [RecordMeal] has just written, at 18:00 in Los Angeles. *)
Lemma recorded_meal_in_Los_Angeles :
  let W := agent.mkWorld ex_env_los_angeles (agent.GetWeather ex_world)
             (agent.SearchNearby ex_world) (agent.LLM_Chat ex_world) in
  let s' := (agent.RecordMeal W "C" "川菜" ex_sys).2 in
  penalty_for (memory.GetAllPenalties ex_env_los_angeles
                 (agent.history (agent.self s'))) "C" = -50.
Proof. vm_compute. reflexivity. Qed.


(** ** The weight rule *)

Lemma first_category_Some entries typeStr c cw :
  preference.first_category entries typeStr = Some (c, cw) →
  (c, cw) ∈ entries ∧ go.Contains typeStr c = true.
Proof.
  induction entries as [|[c' cw'] entries IH]; simpl; [done|].
  destruct (go.Contains typeStr c') eqn:Hc.
  - intros [= -> ->]. split; [left | done].
  - intros H. destruct (IH H). split; [by right | done].
Qed.

Lemma first_category_None entries typeStr c cw :
  preference.first_category entries typeStr = None →
  (c, cw) ∈ entries → go.Contains typeStr c = false.
Proof.
  induction entries as [|[c' cw'] entries IH]; simpl.
  - intros _ H. by apply elem_of_nil in H.
  - destruct (go.Contains typeStr c') eqn:Hc; [done|].
    intros Hnone [[= -> ->]|Hin]%elem_of_cons; [done | by apply IH].
Qed.

Lemma range_order_entry E k (m : gmap string Z) c cw :
  go.range_sound E → (c, cw) ∈ go.range_order E k m ↔ m !! c = Some cw.
Proof.
  intros Hsound. rewrite (Hsound k m). apply elem_of_map_to_list.
Qed.

(** The weight before the penalty, for a candidate that is not excluded. *)
Lemma weight_of_eq E pref penalties i r :
  int_weights pref →
  name_entry pref (tools.Name r) ≠ Some 0 →
  agent.weight_of E pref penalties i r
  = spec_weight go.int_mul go.int_quo go.int_add
      (name_entry pref (tools.Name r))
      (snd <$> category_hit E pref i (tools.Type_ r))
      (penalty_for penalties (tools.Name r)).
Proof.
  intros Hint Hne.
  unfold agent.weight_of, spec_weight, penalty_for, name_entry, category_hit in *.
  destruct pref as [p|]; simpl in *.
  - destruct (Hint p eq_refl) as [Hnames _].
    unfold preference.GetRestaurantWeight, preference.GetCategoryWeight.
    set (w0 := default 100 (preference.restaurantMap p !! tools.Name r)).
    assert (Hw0 : go.is_int w0).
    { subst w0. destruct (preference.restaurantMap p !! tools.Name r) as [w|] eqn:Hw.
      - by apply (Hnames _ _ Hw).
      - unfold go.is_int. simpl. lia. }
    assert (Hpw : (if match preference.restaurantMap p !! tools.Name r with
                       | Some weight => weight
                       | None => 100
                       end =? 0 then 0
                   else match preference.restaurantMap p !! tools.Name r with
                        | Some weight => weight
                        | None => 100
                        end) = w0).
    { subst w0. destruct (preference.restaurantMap p !! tools.Name r) as [w|]; simpl.
      - destruct (Z.eqb_spec w 0) as [->|]; [done|done].
      - done. }
    rewrite Hpw. clear Hpw.
    set (before := match
        snd <$> preference.first_category
                  (go.range_order E i (preference.categoryMap p)) (tools.Type_ r)
      with
      | Some cw => if decide (cw = 100) then w0
                   else go.int_quo (go.int_mul w0 cw) 100
      | None => w0
      end).
    assert (Hbefore : go.is_int before).
    { subst before.
      destruct (preference.first_category _ _) as [[c cw]|]; simpl; [|done].
      case_decide; [done | apply wrap64_is_int]. }
    assert (Hcode : (if match preference.first_category
                             (go.range_order E i (preference.categoryMap p))
                             (tools.Type_ r) with
                        | Some (_, weight) => weight
                        | None => 100
                        end =? 100 then w0
                     else go.int_quo
                            (go.int_mul w0
                               match preference.first_category
                                       (go.range_order E i (preference.categoryMap p))
                                       (tools.Type_ r) with
                               | Some (_, weight) => weight
                               | None => 100
                               end) 100) = before).
    { subst before.
      destruct (preference.first_category _ _) as [[c cw]|]; simpl; [|done].
      destruct (Z.eqb_spec cw 100); case_decide; done. }
    rewrite Hcode.
    destruct (penalties !! tools.Name r); simpl; [done|].
    unfold go.int_add. rewrite Z.add_0_r. by rewrite wrap64_id.
  - by destruct (penalties !! tools.Name r).
Qed.

Lemma spec_weight_exact nameWeight categoryWeight pen :
  go.is_int (default 100 nameWeight) →
  no_overflow nameWeight categoryWeight pen →
  spec_weight go.int_mul go.int_quo go.int_add nameWeight categoryWeight pen
  = spec_weight Z.mul Z.quot Z.add nameWeight categoryWeight pen.
Proof.
  intros Hw [Hmul Hres]. unfold spec_weight in *.
  destruct categoryWeight as [cw|].
  - destruct (decide (cw = 100)).
    + unfold go.int_add. by rewrite wrap64_id.
    + specialize (Hmul cw eq_refl).
      unfold go.int_add, go.int_quo, go.int_mul.
      rewrite (wrap64_id (_ * _)) by done.
      rewrite (wrap64_id (Z.quot _ _)) by by apply quot_100_is_int.
      by rewrite wrap64_id.
  - unfold go.int_add. by rewrite wrap64_id.
Qed.

(** C1.  For every candidate whose name has no preference entry, or one
    that is not 0, the weight the loop of [GetRecommendation] assigns is
    the name-exact preference weight if present, else 100; multiplied by
    the category weight and divided by 100, truncating, when a category key
    occurs in the candidate's type string (the first such key the [range]
    over the category map meets) and its weight is not 100; plus the
    recency penalty of the candidate's name, which is never positive.  The
    arithmetic is that of [int]; where no intermediate result leaves the
    range of [int] it is the exact one. *)
Theorem weight_rule E pref h rs i r :
  go.range_sound E →
  int_weights pref →
  rs !! i = Some r →
  name_entry pref (tools.Name r) ≠ Some 0 →
  let penalties := memory.GetAllPenalties E h in
  let nameWeight := name_entry pref (tools.Name r) in
  let hit := category_hit E pref i (tools.Type_ r) in
  let penalty := penalty_for penalties (tools.Name r) in
  agent.assign_weights E pref penalties rs !! i
    = Some (tools.set_Weight
              (spec_weight go.int_mul go.int_quo go.int_add
                           nameWeight (snd <$> hit) penalty) r)
  ∧ (∀ p, pref = Some p →
       match hit with
       | Some (c, cw) =>
           preference.categoryMap p !! c = Some cw ∧
           go.Contains (tools.Type_ r) c = true
       | None =>
           ∀ c cw, preference.categoryMap p !! c = Some cw →
                   go.Contains (tools.Type_ r) c = false
       end)
  ∧ (pref = None → hit = None)
  ∧ penalty <= 0
  ∧ (no_overflow nameWeight (snd <$> hit) penalty →
     spec_weight go.int_mul go.int_quo go.int_add nameWeight (snd <$> hit) penalty
     = spec_weight Z.mul Z.quot Z.add nameWeight (snd <$> hit) penalty).
Proof.
  intros Hsound Hint Hlook Hne penalties nameWeight hit penalty.
  split; [|split; [|split; [|split]]].
  - unfold agent.assign_weights. rewrite list_lookup_imap, Hlook. simpl.
    by rewrite weight_of_eq.
  - intros p ->. subst hit. unfold category_hit. simpl.
    destruct (preference.first_category _ _) as [[c cw]|] eqn:Hfc.
    + apply first_category_Some in Hfc as [Hin Hc].
      by apply range_order_entry in Hin.
    + intros c cw Hm. eapply first_category_None; [done|].
      by apply range_order_entry.
  - by intros ->.
  - subst penalty penalties. apply penalty_for_range.
  - intros Hno. apply spec_weight_exact; [|done].
    subst nameWeight. unfold name_entry.
    destruct pref as [p|]; simpl; [|unfold go.is_int; lia].
    destruct (preference.restaurantMap p !! tools.Name r) as [w|] eqn:Hw; simpl.
    + destruct (Hint p eq_refl) as [Hn _]. by apply (Hn _ _ Hw).
    + unfold go.is_int; lia.
Qed.

Lemma weight_of_excluded E pref h i r :
  name_entry pref (tools.Name r) = Some 0 →
  agent.weight_of E pref (memory.GetAllPenalties E h) i r
  = penalty_for (memory.GetAllPenalties E h) (tools.Name r).
Proof.
  intros Hzero. pose proof (penalty_for_range E h (tools.Name r)) as Hrange.
  unfold agent.weight_of, name_entry, penalty_for in *.
  destruct pref as [p|]; simpl in *; [|done].
  unfold preference.GetRestaurantWeight. rewrite Hzero. simpl.
  assert (Hbefore : (if preference.GetCategoryWeight E i p (tools.Type_ r) =? 100
                     then 0
                     else go.int_quo
                            (go.int_mul 0
                               (preference.GetCategoryWeight E i p (tools.Type_ r)))
                            100) = 0).
  { destruct (_ =? 100); [done|]. unfold go.int_mul. by rewrite Z.mul_0_l. }
  unfold preference.GetRestaurantWeight in Hbefore. rewrite Hbefore.
  destruct (memory.GetAllPenalties E h !! tools.Name r) as [pen|]; simpl in *; [|done].
  unfold go.int_add. rewrite Z.add_0_l. apply wrap64_id. unfold go.is_int. lia.
Qed.

Lemma ranked_elem E a cands r' :
  r' ∈ agent.ranked E a cands →
  0 < tools.Weight r' ∧
  ∃ i r, r' = tools.set_Weight
                (agent.weight_of E (agent.pref a)
                   (memory.GetAllPenalties E (agent.history a)) i r) r.
Proof.
  unfold agent.ranked. rewrite SortByWeight_perm.
  unfold tools.FilterByWeight. rewrite list_elem_of_filter.
  intros [Hpos Hin]. split; [done|].
  unfold agent.assign_weights in Hin.
  apply elem_of_lookup_imap in Hin as (i & r & -> & _). eauto.
Qed.

(** C2, as amended.  For every candidate whose name-exact preference weight
    is 0, the weight the loop of [GetRecommendation] assigns is the recency
    penalty of the candidate's name, whatever the category override: 0 when
    the penalty table has no entry for it, and never positive, so that no
    candidate of that name is in the ranked list. *)
Theorem permanent_exclusion E a rs i r :
  rs !! i = Some r →
  name_entry (agent.pref a) (tools.Name r) = Some 0 →
  let penalties := memory.GetAllPenalties E (agent.history a) in
  let penalty := penalty_for penalties (tools.Name r) in
  agent.assign_weights E (agent.pref a) penalties rs !! i
    = Some (tools.set_Weight penalty r)
  ∧ penalty <= 0
  ∧ (penalties !! tools.Name r = None → penalty = 0)
  ∧ (∀ cands r', r' ∈ agent.ranked E a cands → tools.Name r' ≠ tools.Name r).
Proof.
  intros Hlook Hzero penalties penalty. subst penalties penalty.
  split; [|split; [|split]].
  - unfold agent.assign_weights. rewrite list_lookup_imap, Hlook. simpl.
    by rewrite weight_of_excluded.
  - apply penalty_for_range.
  - unfold penalty_for. by intros ->.
  - intros cands r' [Hpos (j & r0 & ->)]%ranked_elem Hname.
    unfold tools.set_Weight in Hpos, Hname.
    cbn [tools.Weight tools.Name] in Hpos, Hname.
    rewrite weight_of_excluded in Hpos by (by rewrite Hname).
    pose proof (penalty_for_range E (agent.history a) (tools.Name r0)). lia.
Qed.

(** C2 fails as stated: "A" has the preference weight 0 and was eaten
    today; its weight is set to 0, the category step leaves 0, and the
    penalty -80 is then added: the final weight is -80, not 0. *)
Lemma excluded_candidate_weight_negative :
  name_entry (Some ex_pref) (tools.Name ex_hotpot) = Some 0 ∧
  tools.Weight <$>
    agent.assign_weights ex_env (Some ex_pref)
      (memory.GetAllPenalties ex_env ex_history) [ex_hotpot] !! 0%nat
  = Some (-80) ∧
  -80 ≠ 0.
Proof. split; [reflexivity|]. split; [vm_compute; reflexivity | lia]. Qed.

Lemma range_sound_ex_env o : go.range_sound (ex_env_writing o).
Proof. intros k m. reflexivity. Qed.

Lemma int_weights_ex_pref : int_weights (Some ex_pref).
Proof.
  intros p [= <-]. simpl.
  split; apply map_Forall_singleton; unfold go.is_int; lia.
Qed.


Lemma weight_rule_witness :
  agent.assign_weights ex_env (Some ex_pref)
    (memory.GetAllPenalties ex_env ex_history)
    [ex_hotpot; ex_noodle; ex_sichuan] !! 2%nat
  = Some (tools.set_Weight
            (spec_weight go.int_mul go.int_quo go.int_add
               (name_entry (Some ex_pref) (tools.Name ex_sichuan))
               (snd <$> category_hit ex_env (Some ex_pref) 2 (tools.Type_ ex_sichuan))
               (penalty_for (memory.GetAllPenalties ex_env ex_history)
                            (tools.Name ex_sichuan)))
            ex_sichuan).
Proof.
  assert (H1 : go.range_sound ex_env) by (intros k m; reflexivity).
  assert (H2 : int_weights (Some ex_pref)).
  { intros p [= <-]. simpl.
    split; apply map_Forall_singleton; unfold go.is_int; lia. }
  assert (H3 : [ex_hotpot; ex_noodle; ex_sichuan] !! 2%nat = Some ex_sichuan)
    by reflexivity.
  assert (H4 : name_entry (Some ex_pref) (tools.Name ex_sichuan) ≠ Some 0)
    by (vm_compute; discriminate).
  exact (proj1 (weight_rule ex_env (Some ex_pref) ex_history
                  [ex_hotpot; ex_noodle; ex_sichuan] 2 ex_sichuan H1 H2 H3 H4)).
Defined.

Lemma permanent_exclusion_witness :
  agent.assign_weights ex_env (agent.pref ex_agent)
    (memory.GetAllPenalties ex_env (agent.history ex_agent)) [ex_hotpot] !! 0%nat
  = Some (tools.set_Weight
            (penalty_for (memory.GetAllPenalties ex_env (agent.history ex_agent))
                         (tools.Name ex_hotpot))
            ex_hotpot).
Proof.
  apply (permanent_exclusion ex_env ex_agent [ex_hotpot] 0 ex_hotpot);
    reflexivity.
Defined.


(** ** The recommendation pipeline *)

(** C7.  If the places search succeeds and no candidate is left after the
    blacklist, the keyword exclusion and the pruning of weights, the call
    returns the fixed message and no error; it has asked the weather and
    the places provider and not the language model, and the agent, its
    message list included, is as before. *)
Theorem GetRecommendation_no_candidate W mealType s found :
  let loc := config.location (agent.cfg (agent.self s)) in
  agent.SearchNearby W (config.Lat loc) (config.Lng loc) (config.Radius loc) ""
    = go.Ok found →
  agent.ranked (agent.env W) (agent.self s) found = [] →
  let new_calls := [ agent.WeatherCall (config.City loc);
                     agent.PlacesCall (config.Lat loc) (config.Lng loc)
                                      (config.Radius loc) "" ] in
  agent.GetRecommendation W mealType s
    = (go.Ok agent.no_candidate_message,
       agent.mkSys (agent.self s) (agent.files s) (agent.calls s ++ new_calls))
  ∧ llm_invoked new_calls = false
  ∧ agent.messages (agent.self (agent.GetRecommendation W mealType s).2)
    = agent.messages (agent.self s).
Proof.
  intros loc Hfound Hnone new_calls. subst loc new_calls.
  unfold agent.GetRecommendation. simpl. rewrite Hfound, Hnone.
  unfold agent.logged. simpl. rewrite <- (assoc_L (++)). done.
Qed.

Lemma GetRecommendation_no_candidate_witness :
  (agent.GetRecommendation ex_world "lunch" ex_sys_all_blacklisted).1
  = go.Ok agent.no_candidate_message.
Proof.
  pose proof (GetRecommendation_no_candidate ex_world "lunch" ex_sys_all_blacklisted
                [ex_hotpot; ex_noodle; ex_sichuan] eq_refl eq_refl) as [H _].
  by rewrite H.
Defined.





(** ** The history ledger *)

(** C9.  [Add] appends the record to the in-memory list (dated today when
    it has no date) before it saves.  If the write succeeds, no error is
    returned and the file holds the new list when the call returns.  If the
    write fails, the error is returned and the record stays appended: a file
    that held the old list, or no file, then differs from the list in
    memory.  After any [Add] that returns no error the file holds the whole
    list in memory. *)
Theorem Add_appends_before_saving E record h files :
  let stored := if decide (memory.Date record = "")
                then memory.with_Date (go.date (go.Now E)) record else record in
  let out := memory.Add E record h files in
  let err := out.1.1 in
  let h' := out.1.2 in
  let files' := out.2 in
  memory.Records h' = memory.Records h ++ [stored]
  ∧ memory.filePath h' = memory.filePath h
  ∧ match go.WriteFile E with
    | go.Written =>
        err = None ∧ files' !! memory.filePath h = Some (memory.Records h')
    | go.Refused e => err = Some e ∧ files' = files
    | go.Torn e => err = Some e ∧ files' !! memory.filePath h = None
    end
  ∧ (err = None → files' !! memory.filePath h = Some (memory.Records h'))
  ∧ (err ≠ None →
     files !! memory.filePath h = Some (memory.Records h) ∨
     files !! memory.filePath h = None →
     files' !! memory.filePath h ≠ Some (memory.Records h')).
Proof.
  intros stored out err h' files'. subst out err h' files' stored.
  unfold memory.Add, memory.save. simpl.
  destruct (go.WriteFile E) as [|e|e]; simpl.
  - rewrite lookup_insert_eq. repeat split; try done.
  - repeat split; try done. intros _ [Hold|Hold]; rewrite Hold; [|done].
    intros [= Heq]. apply (f_equal length) in Heq.
    rewrite length_app in Heq. simpl in Heq. lia.
  - rewrite lookup_delete_eq. repeat split; try done.
Qed.

Lemma Add_appends_before_saving_witness :
  (memory.Add (ex_env_writing (go.Refused "read-only file system"))
     (memory.mkMealRecord "" "lunch" "B" "面馆" 0 "") ex_history
     {[ "data/history.json" := memory.Records ex_history ]}).2
    !! "data/history.json"
  ≠ Some (memory.Records ex_history
            ++ [memory.mkMealRecord "2024-01-15" "lunch" "B" "面馆" 0 ""]).
Proof.
  apply (Add_appends_before_saving
           (ex_env_writing (go.Refused "read-only file system"))
           (memory.mkMealRecord "" "lunch" "B" "面馆" 0 "") ex_history
           {[ "data/history.json" := memory.Records ex_history ]}).
  - discriminate.
  - left. reflexivity.
Defined.



(** ** The dialogue *)
Lemma find_none_Forall {A} (f : A → bool) l :
  Forall (λ x, f x = false) l → find f l = None.
Proof. induction 1 as [|x l Hx _ IH]; simpl; [done|]. by rewrite Hx. Qed.

Lemma extractSelection_bare r0 rest input :
  no_ordinal (r0 :: rest) input →
  no_offered_name (r0 :: rest) input →
  bare_confirmation input = true →
  agent.extractSelection (r0 :: rest) input = Some r0.
Proof.
  intros Hord Hname Hbare. unfold agent.extractSelection.
  unfold no_ordinal in Hord. rewrite Hord.
  rewrite (find_none_Forall _ _ Hname).
  unfold bare_confirmation in Hbare. rewrite Hbare. done.
Qed.

Lemma Add_Records E record h files :
  memory.Records (memory.Add E record h files).1.2
  = memory.Records h
    ++ [if decide (memory.Date record = "")
        then memory.with_Date (go.date (go.Now E)) record else record].
Proof.
  unfold memory.Add, memory.save. by destruct (go.WriteFile E).
Qed.

Lemma Add_Records_dated E mealType restaurant category h files :
  memory.Records
    (memory.Add E (memory.mkMealRecord (go.date (go.Now E)) mealType
                                       restaurant category 0 "") h files).1.2
  = memory.Records h
    ++ [memory.mkMealRecord (go.date (go.Now E)) mealType restaurant category 0 ""].
Proof.
  rewrite Add_Records. simpl. case_decide as Hd; [|done].
  unfold memory.with_Date. simpl. by rewrite Hd.
Qed.

(** C4, on the code.  When two or more candidates were last offered and
    the turn is a bare confirmation, with no ordinal phrase and no offered
    name, [extractSelection] still resolves to the first offered candidate:
    [confirmChoice] does not answer with the clarification request and
    appends a meal record for that candidate. *)
Theorem bare_confirmation_takes_first_of_several W s input r0 r1 rest :
  agent.lastRestaurants (agent.self s) = r0 :: r1 :: rest →
  no_ordinal (r0 :: r1 :: rest) input →
  no_offered_name (r0 :: r1 :: rest) input →
  bare_confirmation input = true →
  let out := agent.confirmChoice W input s in
  agent.extractSelection (r0 :: r1 :: rest) input = Some r0
  ∧ out.1 ≠ go.Ok agent.clarification_message
  ∧ memory.Records (agent.history (agent.self out.2))
    = memory.Records (agent.history (agent.self s))
      ++ [memory.mkMealRecord (go.date (go.Now (agent.env W)))
            (agent.mealType_now (agent.env W)) (tools.Name r0)
            (agent.extractCategory (tools.Type_ r0)) 0 ""].
Proof.
  intros Hlast Hord Hname Hbare out.
  pose proof (extractSelection_bare r0 (r1 :: rest) input Hord Hname Hbare) as Hsel.
  split; [done|]. subst out. unfold agent.confirmChoice.
  rewrite Hlast, Hsel.
  pose proof (Add_Records_dated (agent.env W) (agent.mealType_now (agent.env W))
                (tools.Name r0) (agent.extractCategory (tools.Type_ r0))
                (agent.history (agent.self s)) (agent.files s)) as Hrec.
  destruct (memory.Add _ _ _ _) as [[err h'] fs']. simpl in Hrec.
  destruct err; simpl; (split; [discriminate | exact Hrec]).
Qed.

Lemma bare_confirmation_takes_first_of_several_witness :
  (agent.confirmChoice ex_world "好的" ex_sys_two_offered).1
  ≠ go.Ok agent.clarification_message.
Proof.
  apply (bare_confirmation_takes_first_of_several ex_world ex_sys_two_offered
           "好的" ex_noodle ex_sichuan []).
  - reflexivity.
  - reflexivity.
  - repeat constructor.
  - reflexivity.
Defined.

(** The same on a turn of [Chat]: "B" and "C" were offered, the user says
    no more than a confirmation, and "B" is recorded. *)
Lemma Chat_bare_confirmation_two_offered :
  agent.Chat ex_world "好的" ex_sys_two_offered
  = agent.confirmChoice ex_world "好的" ex_sys_two_offered
  ∧ (agent.Chat ex_world "好的" ex_sys_two_offered).1
    = go.Ok "好的，已记录本次午餐选择：B。下次会避免重复推荐。祝用餐愉快！🍽️"
  ∧ memory.Records
      (agent.history (agent.self (agent.Chat ex_world "好的" ex_sys_two_offered).2))
    = [ memory.mkMealRecord "2024-01-15" "lunch" "A" "火锅" 0 "";
        memory.mkMealRecord "2024-01-15" "lunch" "B" "面馆" 0 "" ].
Proof. split; [reflexivity|]. split; vm_compute; reflexivity. Qed.

Lemma containsExclude_true ex kw :
  agent.containsExclude ex kw = true ↔ kw ∈ ex.
Proof.
  unfold agent.containsExclude. rewrite existsb_exists. split.
  - intros (e & Hin & He). apply bool_decide_eq_true in He as <-.
    by apply list_elem_of_In.
  - intros Hin. exists kw. split; [by apply list_elem_of_In|].
    by apply bool_decide_eq_true.
Qed.

Lemma filter_agree {A} (P Q : A → Prop) `{∀ x, Decision (P x)}
    `{∀ x, Decision (Q x)} (l : list A) :
  (∀ x, x ∈ l → (P x ↔ Q x)) → filter P l = filter Q l.
Proof.
  induction l as [|x l IH]; intros Hagree; [done|].
  rewrite !filter_cons.
  rewrite IH by (intros y Hy; apply Hagree; by right).
  pose proof (Hagree x (list_elem_of_here x l)) as Hx.
  destruct (decide (P x)) as [HP|HP], (decide (Q x)) as [HQ|HQ];
    try done; tauto.
Qed.

Lemma parseExclusion_loop input keywords ex :
  NoDup keywords →
  foldl (λ ex kw, if go.Contains input kw && negb (agent.containsExclude ex kw)
                  then ex ++ [kw] else ex) ex keywords
  = ex ++ filter (λ kw, go.Contains input kw = true ∧ kw ∉ ex) keywords.
Proof.
  intros Hnd. revert ex.
  induction Hnd as [|kw keywords Hfresh Hnd IH]; intros ex; simpl.
  - by rewrite app_nil_r.
  - rewrite filter_cons.
    destruct (decide (go.Contains input kw = true ∧ kw ∉ ex)) as [[Hc Hout]|Hno].
    + assert (agent.containsExclude ex kw = false) as ->.
      { destruct (agent.containsExclude ex kw) eqn:Hin; [|done].
        by apply containsExclude_true in Hin. }
      rewrite Hc. simpl. rewrite IH, <- (assoc_L (++)). simpl.
      do 2 f_equal. apply filter_agree. intros x Hx.
      split; intros [Hcx Hnx]; (split; [done|]).
      * intros Hin. apply Hnx, elem_of_app. by left.
      * intros [Hin|Hin%list_elem_of_singleton]%elem_of_app; [done|].
        by subst x.
    + assert (go.Contains input kw && negb (agent.containsExclude ex kw) = false)
        as ->; [|apply IH].
      destruct (go.Contains input kw) eqn:Hc; [|done]. simpl.
      destruct (agent.containsExclude ex kw) eqn:Hin; [done|].
      exfalso. apply Hno. split; [done|]. intros Hin'.
      apply containsExclude_true in Hin'. congruence.
Qed.

Lemma exclusion_keywords_NoDup : NoDup agent.exclusion_keywords.
Proof. apply (bool_decide_unpack (NoDup agent.exclusion_keywords)). vm_compute. exact I. Qed.

Lemma parseExclusion_eq input ex :
  agent.parseExclusion input ex
  = ex ++ filter (λ kw, go.Contains input kw = true ∧ kw ∉ ex)
                 agent.exclusion_keywords.
Proof. apply parseExclusion_loop, exclusion_keywords_NoDup. Qed.

Lemma GetRecommendation_effects W mealType s :
  let loc := config.location (agent.cfg (agent.self s)) in
  let out := agent.GetRecommendation W mealType s in
  agent.tempExclude (agent.self out.2) = agent.tempExclude (agent.self s)
  ∧ agent.files out.2 = agent.files s
  ∧ agent.history (agent.self out.2) = agent.history (agent.self s)
  ∧ ∃ rest,
      agent.calls out.2
      = agent.calls s
        ++ agent.WeatherCall (config.City loc)
           :: agent.PlacesCall (config.Lat loc) (config.Lng loc)
                               (config.Radius loc) "" :: rest.
Proof.
  intros loc out. subst loc out. unfold agent.GetRecommendation.
  destruct s as [[c h p ms ex last] fs cs].
  cbn [agent.self agent.cfg agent.messages agent.files agent.calls].
  destruct (agent.SearchNearby W _ _ _ _) as [found|err].
  - destruct (agent.ranked _ _ _) as [|r0 rs].
    + repeat split; try done. exists []. unfold agent.logged. simpl.
      by rewrite <- (assoc_L (++)).
    + cbv zeta. unfold agent.set_lastRestaurants.
      cbn [agent.self agent.cfg agent.messages agent.files agent.calls].
      destruct ms as [|m ms];
        match goal with
        | |- context [agent.LLM_Chat W ?msgs] => destruct (agent.LLM_Chat W msgs)
        end;
        (repeat split; try done;
         eexists; unfold agent.logged, agent.with_self; simpl;
         rewrite <- !(assoc_L (++)); simpl; reflexivity).
  - repeat split; try done. exists []. unfold agent.logged. simpl.
    by rewrite <- (assoc_L (++)).
Qed.

Lemma confirmChoice_effects W input s :
  let out := agent.confirmChoice W input s in
  agent.tempExclude (agent.self out.2) = agent.tempExclude (agent.self s)
  ∧ agent.calls out.2 = agent.calls s.
Proof.
  intros out. subst out. unfold agent.confirmChoice.
  destruct (agent.extractSelection _ _) as [sel|]; [|done].
  destruct (memory.Add _ _ _ _) as [[[e|] h'] fs']; done.
Qed.

Lemma forward_to_LLM_effects W input s :
  let out := agent.forward_to_LLM W input s in
  agent.tempExclude (agent.self out.2) = agent.tempExclude (agent.self s)
  ∧ agent.calls out.2
    = agent.calls s
      ++ [agent.LLMCall (agent.messages (agent.self s)
                         ++ [agent.mkMessage "user" input])].
Proof.
  intros out. subst out. unfold agent.forward_to_LLM. simpl.
  destruct (agent.LLM_Chat W _); done.
Qed.

Lemma new_calls_app s s' cs :
  agent.calls s' = agent.calls s ++ cs → new_calls s s' = cs.
Proof. intros Heq. unfold new_calls. rewrite Heq. apply drop_app_length. Qed.

(** C6, as amended.  On a turn with an exclusion keyword, [Chat] appends to
    the temporary-exclusion list the keywords of its vocabulary that occur
    in the turn and are not yet on the list, in the order of the vocabulary,
    and goes on with the same turn: the recommendation pipeline runs in that
    turn exactly when the turn is not a confirmation and contains a
    recommendation keyword. *)
Theorem Chat_exclusion_turn W input s :
  agent.exclusion_intent input = true →
  let out := agent.Chat W input s in
  agent.tempExclude (agent.self out.2)
  = agent.tempExclude (agent.self s)
    ++ filter (λ kw, go.Contains input kw = true
                     ∧ kw ∉ agent.tempExclude (agent.self s))
              agent.exclusion_keywords
  ∧ pipeline_ran (new_calls s out.2)
    = negb (agent.isConfirmation input) && agent.recommendation_intent input.
Proof.
  intros Hex out. subst out. unfold agent.Chat. rewrite Hex.
  set (s1 := agent.with_self _ s).
  assert (Hs1 : agent.tempExclude (agent.self s1)
                = agent.tempExclude (agent.self s)
                  ++ filter (λ kw, go.Contains input kw = true
                                   ∧ kw ∉ agent.tempExclude (agent.self s))
                            agent.exclusion_keywords)
    by (subst s1; simpl; apply parseExclusion_eq).
  assert (Hc1 : agent.calls s1 = agent.calls s) by done.
  destruct (agent.isConfirmation input); simpl.
  - destruct (confirmChoice_effects W input s1) as [Ht Hc].
    rewrite Ht. split; [done|].
    rewrite (new_calls_app s _ []); [done|].
    by rewrite Hc, Hc1, app_nil_r.
  - destruct (agent.recommendation_intent input).
    + destruct (GetRecommendation_effects W (agent.mealType_now (agent.env W)) s1)
        as (Ht & _ & _ & rest & Hc).
      rewrite Ht. split; [done|].
      rewrite Hc1 in Hc. by rewrite (new_calls_app _ _ _ Hc).
    + destruct (forward_to_LLM_effects W input s1) as [Ht Hc].
      rewrite Ht. split; [done|].
      rewrite Hc1 in Hc. by rewrite (new_calls_app _ _ _ Hc).
Qed.

Lemma Chat_exclusion_turn_witness :
  pipeline_ran
    (new_calls ex_sys (agent.Chat ex_world "不想吃火锅，推荐别的" ex_sys).2)
  = negb (agent.isConfirmation "不想吃火锅，推荐别的")
    && agent.recommendation_intent "不想吃火锅，推荐别的".
Proof.
  apply (Chat_exclusion_turn ex_world "不想吃火锅，推荐别的" ex_sys).
  reflexivity.
Defined.

(** C6 fails as stated: a turn that excludes hot pot and asks for a
    recommendation extends the exclusions and runs the pipeline at once; the
    answer of the language model is returned and "C" and "B" are offered. *)
Lemma exclusion_turn_runs_pipeline :
  agent.exclusion_intent "不想吃火锅，推荐别的" = true
  ∧ pipeline_ran
      (new_calls ex_sys (agent.Chat ex_world "不想吃火锅，推荐别的" ex_sys).2)
    = true
  ∧ (agent.Chat ex_world "不想吃火锅，推荐别的" ex_sys).1 = go.Ok "推荐：C、B"
  ∧ tools.Name <$>
      agent.lastRestaurants
        (agent.self (agent.Chat ex_world "不想吃火锅，推荐别的" ex_sys).2)
    = ["C"; "B"].
Proof. repeat split; vm_compute; reflexivity. Qed.

(** ** The scheduler *)

Lemma triggerRecommendation_with_conversation W mealType sch ms ex last :
  agent.triggerRecommendation W mealType (with_conversation ms ex last sch)
  = agent.triggerRecommendation W mealType sch.
Proof. reflexivity. Qed.

(** C10.  A recommendation triggered by the scheduler runs the pipeline on
    the agent after [Reset]: with an empty message list, an empty
    temporary-exclusion list and an empty last-offered list.  Hence what it
    sends and the state it leaves do not depend on the conversation state
    before it, whether it is triggered by hand or by a tick at the lunch or
    dinner time, on the same day or a new one. *)
Theorem scheduled_recommendation_is_fresh W mealType sch ms ex last :
  let fresh := agent.with_self (agent.Reset (agent.self (agent.agent_ sch)))
                               (agent.agent_ sch) in
  agent.messages (agent.self fresh) = []
  ∧ agent.tempExclude (agent.self fresh) = []
  ∧ agent.lastRestaurants (agent.self fresh) = []
  ∧ agent.agent_ (agent.triggerRecommendation W mealType sch)
    = (agent.GetRecommendation W mealType fresh).2
  ∧ agent.triggerRecommendation W mealType (with_conversation ms ex last sch)
    = agent.triggerRecommendation W mealType sch
  ∧ agent.ManualTrigger W (with_conversation ms ex last sch)
    = agent.ManualTrigger W sch
  ∧ (go.hhmm (go.Now (agent.env W)) = agent.lunchTime sch ∨
     go.hhmm (go.Now (agent.env W)) = agent.dinnerTime sch →
     ∀ lastDate,
       agent.tick W lastDate (with_conversation ms ex last sch)
       = agent.tick W lastDate sch).
Proof.
  intros fresh. subst fresh.
  split; [done|]. split; [done|]. split; [done|]. split.
  { unfold agent.triggerRecommendation.
    destruct (agent.GetRecommendation W mealType _) as [[rec|err] s']; done. }
  split; [done|]. split; [done|].
  intros Htime lastDate. unfold agent.tick.
  destruct (decide (go.date (go.Now (agent.env W)) ≠ lastDate)); simpl.
  - done.
  - destruct (decide (go.hhmm (go.Now (agent.env W)) = agent.lunchTime sch));
      [done|].
    destruct (decide (go.hhmm (go.Now (agent.env W)) = agent.dinnerTime sch));
      [done|].
    by destruct Htime.
Qed.

Lemma scheduled_recommendation_is_fresh_witness :
  agent.tick ex_world "2024-01-15"
    (with_conversation [agent.mkMessage "user" "不想吃面"] ["面"] [ex_noodle]
                       ex_scheduler)
  = agent.tick ex_world "2024-01-15" ex_scheduler.
Proof.
  apply (scheduled_recommendation_is_fresh ex_world "lunch" ex_scheduler
           [agent.mkMessage "user" "不想吃面"] ["面"] [ex_noodle]).
  left. reflexivity.
Defined.

(** * Further properties of the code *)

(** ** Ranking: further properties *)

Lemma sweep_dominating p rest :
  Forall (by_weight_desc p) rest → sweep p rest = (p, rest).
Proof.
  induction 1 as [|x xs Hx _ IH]; simpl; [done|].
  unfold by_weight_desc in Hx. rewrite decide_False by lia. by rewrite IH.
Qed.

Lemma sweep_sort_sorted_id n l :
  StronglySorted by_weight_desc l → sweep_sort n l = l.
Proof.
  intros Hs. revert n. induction Hs as [|p rest _ IH Hall]; intros [|n]; simpl;
    try done.
  by rewrite (sweep_dominating p rest Hall), IH.
Qed.

Lemma SortByWeight_sorted_id rs :
  StronglySorted by_weight_desc rs → tools.SortByWeight rs = rs.
Proof. intros Hs. rewrite SortByWeight_sweep_sort. by apply sweep_sort_sorted_id. Qed.

(** X1.  Ranking is idempotent: sorting a list that [SortByWeight] has
    sorted changes nothing (no exchange happens on a list already in
    descending order). *)
Theorem SortByWeight_idempotent rs :
  tools.SortByWeight (tools.SortByWeight rs) = tools.SortByWeight rs.
Proof. apply SortByWeight_sorted_id, SortByWeight_sorted. Qed.

Lemma excluded_false ex r :
  tools.excluded ex r = false ↔
  Forall (λ kw, go.Contains (tools.Type_ r) kw = false
                ∧ go.Contains (tools.Name r) kw = false) ex.
Proof.
  unfold tools.excluded. induction ex as [|kw ex IH]; simpl.
  - split; [constructor | done].
  - rewrite orb_false_iff, IH, Forall_cons, orb_false_iff. tauto.
Qed.

Lemma filters_eligible a found :
  match agent.tempExclude a with
  | [] => tools.FilterByBlacklist found
            (config.Blacklist (agent.cfg a) ++ config.TempExclude (agent.cfg a))
  | _ :: _ =>
      tools.FilterByType
        (tools.FilterByBlacklist found
           (config.Blacklist (agent.cfg a) ++ config.TempExclude (agent.cfg a)))
        (agent.tempExclude a)
  end = eligible a found.
Proof.
  unfold eligible, tools.FilterByType, tools.FilterByBlacklist.
  destruct (agent.tempExclude a) as [|kw ex] eqn:Hex.
  - apply filter_agree. intros r _. rewrite not_elem_of_app.
    split; [intros [? ?]; repeat split; [done|done|constructor] | tauto].
  - rewrite list_filter_filter. apply filter_agree. intros r _.
    rewrite excluded_false, not_elem_of_app. tauto.
Qed.

Lemma ranked_eq E a found :
  agent.ranked E a found
  = tools.SortByWeight
      (tools.FilterByWeight
         (agent.assign_weights E (agent.pref a)
            (memory.GetAllPenalties E (agent.history a)) (eligible a found))).
Proof. unfold agent.ranked. by rewrite filters_eligible. Qed.

Lemma ranked_candidate E a found r :
  r ∈ agent.ranked E a found →
  0 < tools.Weight r
  ∧ ∃ r0, r0 ∈ found ∧ r = tools.set_Weight (tools.Weight r) r0
      ∧ (tools.Name r0 ∉ config.Blacklist (agent.cfg a))
      ∧ (tools.Name r0 ∉ config.TempExclude (agent.cfg a))
      ∧ Forall (λ kw, go.Contains (tools.Type_ r0) kw = false
                      ∧ go.Contains (tools.Name r0) kw = false)
               (agent.tempExclude a).
Proof.
  rewrite ranked_eq, SortByWeight_perm.
  unfold tools.FilterByWeight. rewrite list_elem_of_filter. intros [Hpos Hin].
  split; [done|].
  unfold agent.assign_weights in Hin.
  apply elem_of_lookup_imap in Hin as (i & r0 & -> & Hlook).
  apply list_elem_of_lookup_2 in Hlook.
  unfold eligible in Hlook. apply list_elem_of_filter in Hlook as [(Hb & Ht & Hex) Hfound].
  by exists r0.
Qed.

(** X2.  The ranked list of [GetRecommendation] is in descending order
    of weight, and each of its candidates has a positive weight, is one of
    the candidates found (with only the weight set), has a name on neither
    blacklist of the configuration, and has no temporarily excluded keyword
    in its type or its name. *)
Theorem ranked_sound E a found :
  StronglySorted by_weight_desc (agent.ranked E a found)
  ∧ Forall (λ r,
      0 < tools.Weight r
      ∧ (∃ r0, r0 ∈ found ∧ r = tools.set_Weight (tools.Weight r) r0)
      ∧ (tools.Name r ∉ config.Blacklist (agent.cfg a))
      ∧ (tools.Name r ∉ config.TempExclude (agent.cfg a))
      ∧ Forall (λ kw, go.Contains (tools.Type_ r) kw = false
                      ∧ go.Contains (tools.Name r) kw = false)
               (agent.tempExclude a))
      (agent.ranked E a found).
Proof.
  split; [unfold agent.ranked; apply SortByWeight_sorted|].
  apply Forall_forall. intros r Hin.
  destruct (ranked_candidate E a found r Hin) as (Hpos & r0 & Hfound & Hr & Hel).
  split; [done|]. split; [by exists r0|].
  rewrite Hr. exact Hel.
Qed.

(** X3.  Without a preference table no candidate is pruned for recency:
    every weight lies between 20 and 100, so the ranked list is a
    rearrangement of the weighted eligible candidates. *)
Theorem no_preferences_nothing_pruned E a found :
  agent.pref a = None →
  agent.ranked E a found
    ≡ₚ agent.assign_weights E None (memory.GetAllPenalties E (agent.history a))
         (eligible a found)
  ∧ length (agent.ranked E a found) = length (eligible a found)
  ∧ Forall (λ r, 20 <= tools.Weight r <= 100) (agent.ranked E a found).
Proof.
  intros Hpref. rewrite ranked_eq, Hpref.
  set (ws := agent.assign_weights E None _ (eligible a found)).
  assert (Hall : Forall (λ r, 20 <= tools.Weight r <= 100) ws).
  { apply Forall_forall. intros r Hin. subst ws. unfold agent.assign_weights in Hin.
    apply elem_of_lookup_imap in Hin as (i & r0 & -> & _). simpl.
    pose proof (penalty_for_range E (agent.history a) (tools.Name r0)) as Hr.
    unfold agent.weight_of, penalty_for in *.
    destruct (memory.GetAllPenalties E (agent.history a) !! tools.Name r0) as [pen|];
      simpl in *; [|lia].
    unfold go.int_add. rewrite wrap64_id; [lia|]. unfold go.is_int. lia. }
  assert (Hkeep : tools.FilterByWeight ws = ws).
  { unfold tools.FilterByWeight. clear -Hall.
    induction Hall as [|r l Hr _ IH]; [done|].
    rewrite filter_cons, decide_True by lia. by rewrite IH. }
  rewrite Hkeep. split; [apply SortByWeight_perm|]. split.
  - rewrite SortByWeight_perm. subst ws. unfold agent.assign_weights.
    apply length_imap.
  - by rewrite SortByWeight_perm.
Qed.

Lemma no_preferences_nothing_pruned_witness :
  length (agent.ranked ex_env ex_agent_no_pref [ex_hotpot; ex_noodle; ex_sichuan])
  = length (eligible ex_agent_no_pref [ex_hotpot; ex_noodle; ex_sichuan]).
Proof.
  apply (no_preferences_nothing_pruned ex_env ex_agent_no_pref
           [ex_hotpot; ex_noodle; ex_sichuan]).
  reflexivity.
Defined.

(** ** Recency: further properties *)



Lemma GetRecentPenalty_weaker_than_table :
  memory.GetRecentPenalty ex_env ex_history_twice "B" = -15
  ∧ penalty_for (memory.GetAllPenalties ex_env ex_history_twice) "B" = -80.
Proof. split; vm_compute; reflexivity. Qed.

Lemma penalty_after_Add_today E mealType name category h files :
  clock_consistent E →
  penalty_for
    (memory.GetAllPenalties E
       (memory.Add E (memory.mkMealRecord (go.date (go.Now E)) mealType
                                          name category 0 "") h files).1.2)
    name = -80.
Proof.
  intros (t & Hparse & Hdays).
  pose proof (penalty_for_range E
    (memory.Add E (memory.mkMealRecord (go.date (go.Now E)) mealType
                                       name category 0 "") h files).1.2 name)
    as Hrange.
  rewrite penalty_for_GetAllPenalties in *.
  assert (Hin : (0 : Z) ∈ window_ages E
            (memory.Add E (memory.mkMealRecord (go.date (go.Now E)) mealType
                                               name category 0 "") h files).1.2
            name).
  { unfold window_ages. rewrite Add_Records_dated.
    apply list_elem_of_omap. eexists. split; [apply elem_of_app; right; left|].
    unfold age_in_window, memory.daysDiff. simpl.
    rewrite decide_True by done. rewrite Hparse, Hdays. done. }
  apply (list_elem_of_fmap_2 step_penalty) in Hin.
  apply most_negative_le in Hin. simpl in Hin. lia.
Qed.

(** X6.  Where today's date parses to within a day of now, a meal
    recorded by [RecordMeal], or by a confirmation that resolves to a
    candidate, gives that restaurant the penalty -80 in the next ranking,
    whether or not the write of the history file succeeded. *)
Theorem recorded_meal_is_penalised W s :
  clock_consistent (agent.env W) →
  (∀ restaurant category,
     penalty_for
       (memory.GetAllPenalties (agent.env W)
          (agent.history (agent.self (agent.RecordMeal W restaurant category s).2)))
       restaurant = -80)
  ∧ (∀ input selected,
       agent.extractSelection (agent.lastRestaurants (agent.self s)) input
         = Some selected →
       penalty_for
         (memory.GetAllPenalties (agent.env W)
            (agent.history (agent.self (agent.confirmChoice W input s).2)))
         (tools.Name selected) = -80).
Proof.
  intros Hclock. split.
  - intros restaurant category. unfold agent.RecordMeal.
    pose proof (penalty_after_Add_today (agent.env W)
                  (agent.mealType_now (agent.env W)) restaurant category
                  (agent.history (agent.self s)) (agent.files s) Hclock) as H.
    by destruct (memory.Add _ _ _ _) as [[err h'] fs'].
  - intros input selected Hsel. unfold agent.confirmChoice. rewrite Hsel.
    pose proof (penalty_after_Add_today (agent.env W)
                  (agent.mealType_now (agent.env W)) (tools.Name selected)
                  (agent.extractCategory (tools.Type_ selected))
                  (agent.history (agent.self s)) (agent.files s) Hclock) as H.
    by destruct (memory.Add _ _ _ _) as [[[e|] h'] fs'].
Qed.

Lemma recorded_meal_is_penalised_witness :
  penalty_for
    (memory.GetAllPenalties (agent.env ex_world_read_only)
       (agent.history
          (agent.self (agent.RecordMeal ex_world_read_only "C" "川菜" ex_sys).2)))
    "C" = -80.
Proof.
  apply (recorded_meal_is_penalised ex_world_read_only ex_sys).
  exists (1705276800000000000). split; reflexivity.
Defined.

(** ** Strings: occurrences and splitting *)

Lemma append_cons x (a b : string) : String x a +:+ b = String x (a +:+ b).
Proof. reflexivity. Qed.

Lemma append_empty (b : string) : "" +:+ b = b.
Proof. reflexivity. Qed.

Lemma append_assoc (a b c : string) : (a +:+ b) +:+ c = a +:+ (b +:+ c).
Proof.
  induction a as [|x a IH]; [done|]. rewrite !append_cons. by rewrite IH.
Qed.

Lemma prefix_empty s : String.prefix "" s = true.
Proof. by destruct s. Qed.

Lemma prefix_append p s t :
  String.prefix p s = true → String.prefix p (s +:+ t) = true.
Proof.
  revert s. induction p as [|x p IH]; intros [|y s]; try done;
    [intros _; apply prefix_empty|].
  rewrite append_cons. simpl.
  destruct (ascii_dec x y); [apply IH | done].
Qed.

Lemma prefix_here p t : String.prefix p (p +:+ t) = true.
Proof.
  induction p as [|x p IH]; [apply prefix_empty|]. rewrite append_cons. simpl.
  destruct (ascii_dec x x); [apply IH | done].
Qed.

Lemma Contains_unfold s substr :
  go.Contains s substr
  = String.prefix substr s
    || match s with
       | EmptyString => false
       | String _ s' => go.Contains s' substr
       end.
Proof. by destruct s. Qed.

Lemma Contains_append_l s t substr :
  go.Contains s substr = true → go.Contains (s +:+ t) substr = true.
Proof.
  induction s as [|x s IH].
  - simpl. rewrite orb_false_r. intros Hp. destruct substr; [|done].
    rewrite Contains_unfold, prefix_empty. done.
  - rewrite append_cons. simpl.
    intros [Hp|Hc]%orb_true_iff; apply orb_true_iff.
    + left. by apply (prefix_append substr (String x s) t).
    + right. by apply IH.
Qed.

Lemma Contains_append_r s t substr :
  go.Contains t substr = true → go.Contains (s +:+ t) substr = true.
Proof.
  intros Ht. induction s as [|x s IH]; [done|].
  rewrite append_cons. simpl. apply orb_true_iff. by right.
Qed.

Lemma Contains_here t substr : go.Contains (substr +:+ t) substr = true.
Proof.
  rewrite Contains_unfold. apply orb_true_iff. left. apply prefix_here.
Qed.

Lemma Contains_self s : go.Contains s s = true.
Proof.
  rewrite Contains_unfold. apply orb_true_iff. left.
  induction s as [|x s IH]; [done|]. simpl. by destruct (ascii_dec x x).
Qed.

Lemma Contains_middle a substr b :
  go.Contains (a +:+ substr +:+ b) substr = true.
Proof. apply Contains_append_r, Contains_here. Qed.

(** ** The history summary *)

Lemma Summary_loop_keeps x (l : list memory.MealRecord) acc :
  go.Contains acc x = true →
  go.Contains
    (foldl (λ summary r,
              let summary := summary +:+ "- " +:+ memory.Date r +:+ " "
                               +:+ memory.MealType r +:+ ": "
                               +:+ memory.Restaurant r in
              let summary := if decide (memory.Category r = "") then summary
                             else summary +:+ "（" +:+ memory.Category r +:+ "）" in
              summary +:+ go.LF) acc l) x = true.
Proof.
  revert acc. induction l as [|r l IH]; intros acc Hacc; [done|].
  simpl. apply IH. apply Contains_append_l.
  destruct (decide (memory.Category r = "")); repeat apply Contains_append_l; done.
Qed.

Lemma Summary_loop_lists (l : list memory.MealRecord) acc r :
  r ∈ l →
  go.Contains
    (foldl (λ summary r,
              let summary := summary +:+ "- " +:+ memory.Date r +:+ " "
                               +:+ memory.MealType r +:+ ": "
                               +:+ memory.Restaurant r in
              let summary := if decide (memory.Category r = "") then summary
                             else summary +:+ "（" +:+ memory.Category r +:+ "）" in
              summary +:+ go.LF) acc l) (memory.Restaurant r) = true.
Proof.
  revert acc. induction l as [|r' l IH]; intros acc; [by intros ?%elem_of_nil|].
  intros [->|Hin]%elem_of_cons; [|by apply IH].
  simpl. apply Summary_loop_keeps. apply Contains_append_l.
  assert (go.Contains
            (acc +:+ "- " +:+ memory.Date r' +:+ " " +:+ memory.MealType r'
               +:+ ": " +:+ memory.Restaurant r') (memory.Restaurant r') = true)
    as Hline.
  { do 6 apply Contains_append_r. apply Contains_self. }
  destruct (decide (memory.Category r' = "")); [done|].
  by apply Contains_append_l.
Qed.

Lemma Summary_lists_recent E h r :
  r ∈ memory.GetRecent E h 7 →
  go.Contains (memory.Summary E h) (memory.Restaurant r) = true.
Proof.
  unfold memory.Summary. intros Hin.
  destruct (memory.GetRecent E h 7) as [|r0 l] eqn:Hrecent;
    [by apply elem_of_nil in Hin|].
  by apply Summary_loop_lists.
Qed.

(** X5.  Where today's date is not before the date of seven days ago (as
    strings), a meal recorded by [RecordMeal] is among the records of the
    trailing seven days and the history summary contains the name of its
    restaurant. *)
Theorem recorded_meal_in_summary W restaurant category s :
  go.string_ge (go.date (go.Now (agent.env W)))
               (go.date_days_ago (go.Now (agent.env W)) 7) = true →
  let h' := agent.history (agent.self (agent.RecordMeal W restaurant category s).2) in
  memory.mkMealRecord (go.date (go.Now (agent.env W)))
    (agent.mealType_now (agent.env W)) restaurant category 0 ""
    ∈ memory.GetRecent (agent.env W) h' 7
  ∧ go.Contains (memory.Summary (agent.env W) h') restaurant = true.
Proof.
  intros Hclock h'.
  assert (Hin : memory.mkMealRecord (go.date (go.Now (agent.env W)))
                  (agent.mealType_now (agent.env W)) restaurant category 0 ""
                ∈ memory.GetRecent (agent.env W) h' 7).
  { subst h'. unfold agent.RecordMeal.
    pose proof (Add_Records_dated (agent.env W) (agent.mealType_now (agent.env W))
                  restaurant category (agent.history (agent.self s))
                  (agent.files s)) as Hrec.
    destruct (memory.Add _ _ _ _) as [[err h1] fs1]. simpl in *.
    unfold memory.GetRecent. apply list_elem_of_filter. split; [done|].
    rewrite Hrec. apply elem_of_app. right. left. }
  split; [done|].
  apply (Summary_lists_recent _ _ _ Hin).
Qed.

Lemma recorded_meal_in_summary_witness :
  go.Contains
    (memory.Summary (agent.env ex_world)
       (agent.history (agent.self (agent.RecordMeal ex_world "C" "川菜" ex_sys).2)))
    "C" = true.
Proof.
  apply (recorded_meal_in_summary ex_world "C" "川菜" ex_sys). reflexivity.
Defined.

(** ** Splitting a type string *)

Lemma Contains_sep_cons sep x s :
  go.Contains (String x s) (String sep "") = false →
  x ≠ sep ∧ go.Contains s (String sep "") = false.
Proof.
  simpl. intros [Hp Hc]%orb_false_iff. split; [|done].
  intros ->. destruct (ascii_dec sep sep); [|done].
  by rewrite prefix_empty in Hp.
Qed.

Lemma Split_sep_free sep s :
  go.Contains s (String sep "") = false → go.Split sep s = [s].
Proof.
  induction s as [|x s IH]; [done|].
  intros [Hx Hs]%Contains_sep_cons. simpl.
  rewrite (proj2 (Ascii.eqb_neq x sep)) by done. by rewrite IH.
Qed.

Lemma Split_append sep s rest :
  go.Contains s (String sep "") = false →
  go.Split sep (s +:+ String sep rest) = s :: go.Split sep rest.
Proof.
  induction s as [|x s IH].
  - intros _. rewrite append_empty. simpl. by rewrite Ascii.eqb_refl.
  - intros [Hx Hs]%Contains_sep_cons. rewrite append_cons. simpl.
    rewrite (proj2 (Ascii.eqb_neq x sep)) by done. by rewrite IH.
Qed.

(** X10.  [extractCategory] returns the third segment of a type string
    of three or more segments separated by semicolons, the second of two,
    and the whole string when there is no semicolon. *)
Theorem extractCategory_segments a b c rest :
  go.Contains a ";" = false →
  go.Contains b ";" = false →
  go.Contains c ";" = false →
  agent.extractCategory a = a
  ∧ agent.extractCategory (a +:+ ";" +:+ b) = b
  ∧ agent.extractCategory (a +:+ ";" +:+ b +:+ ";" +:+ c) = c
  ∧ agent.extractCategory (a +:+ ";" +:+ b +:+ ";" +:+ c +:+ ";" +:+ rest) = c.
Proof.
  intros Ha Hb Hc. unfold agent.extractCategory.
  change ";" with (String ";"%char "") in *.
  rewrite !append_cons, !append_empty.
  repeat split.
  - by rewrite Split_sep_free.
  - rewrite (Split_append ";" a b Ha).
    by rewrite Split_sep_free.
  - rewrite (Split_append ";" a _ Ha), (Split_append ";" b _ Hb).
    by rewrite Split_sep_free.
  - rewrite (Split_append ";" a _ Ha), (Split_append ";" b _ Hb),
      (Split_append ";" c _ Hc). done.
Qed.

Lemma extractCategory_segments_witness :
  agent.extractCategory ("餐饮服务" +:+ ";" +:+ "中餐厅" +:+ ";" +:+ "川菜") = "川菜".
Proof.
  apply (extractCategory_segments "餐饮服务" "中餐厅" "川菜" ""); reflexivity.
Defined.

(** ** The dialogue: further properties *)

Lemma find_some_elem {A} (f : A → bool) l x :
  find f l = Some x → x ∈ l ∧ f x = true.
Proof.
  induction l as [|y l IH]; simpl; [done|].
  destruct (f y) eqn:Hy.
  - intros [= ->]. split; [left | done].
  - intros [Hin Hx]%IH. split; [by right | done].
Qed.

(** X7.  [extractSelection] resolves to nothing when nothing was offered
    and otherwise only to a candidate of the last-offered list; an ordinal
    phrase whose index is within the list decides before any name is looked
    for, and its index is below 3. *)
Theorem extractSelection_offered last input :
  (last = [] → agent.extractSelection last input = None)
  ∧ (∀ r, agent.extractSelection last input = Some r → r ∈ last)
  ∧ (∀ p, find (λ p : string * nat,
                  go.Contains input p.1 && bool_decide (p.2 < length last)%nat)
               agent.orderPatterns = Some p →
          (p.2 < 3)%nat ∧ agent.extractSelection last input = last !! p.2
          ∧ is_Some (last !! p.2)).
Proof.
  split; [by intros ->|]. split.
  - intros r. unfold agent.extractSelection.
    destruct last as [|r0 rest] eqn:Hlast; [done|]. rewrite <- Hlast.
    destruct (find _ agent.orderPatterns) as [p|].
    { intros Hp. by apply list_elem_of_lookup_2 in Hp. }
    destruct (find _ last) as [r'|] eqn:Hname.
    { intros [= <-]. by apply find_some_elem in Hname as [? _]. }
    destruct (_ && _); [|done].
    intros Hp. by apply list_elem_of_lookup_2 in Hp.
  - intros p Hp. pose proof Hp as [Hin Hf]%find_some_elem.
    apply andb_true_iff in Hf as [_ Hlt%bool_decide_eq_true].
    split.
    { unfold agent.orderPatterns in Hin.
      repeat (apply elem_of_cons in Hin as [->|Hin]; [simpl; lia|]).
      by apply elem_of_nil in Hin. }
    split; [|by apply lookup_lt_is_Some].
    unfold agent.extractSelection. destruct last as [|r0 rest]; [simpl in Hlt; lia|].
    by rewrite Hp.
Qed.

Lemma extractSelection_offered_witness :
  agent.extractSelection [ex_noodle; ex_sichuan] "B不要，第二个"
  = [ex_noodle; ex_sichuan] !! 1%nat.
Proof.
  apply (proj2 (proj2 (extractSelection_offered [ex_noodle; ex_sichuan]
                         "B不要，第二个")) ("第二", 1%nat)).
  reflexivity.
Defined.

(** X8.  A failure of the language model is not rolled back.  In a
    free-form turn the error is returned as it is and the user's message
    stays appended to the conversation; in a recommendation the error is
    returned behind a fixed prefix, the ranked list has already become the
    last-offered list and the prompt stays in the conversation, with no
    assistant message after it. *)
Theorem LLM_failure_keeps_the_turn W s :
  (∀ input err,
     agent.LLM_Chat W (agent.messages (agent.self s)
                       ++ [agent.mkMessage "user" input]) = go.Err err →
     agent.forward_to_LLM W input s
     = (go.Err err,
        agent.mkSys
          (agent.set_messages
             (agent.messages (agent.self s) ++ [agent.mkMessage "user" input])
             (agent.self s))
          (agent.files s)
          (agent.calls s
             ++ [agent.LLMCall (agent.messages (agent.self s)
                                ++ [agent.mkMessage "user" input])])))
  ∧ (∀ mealType found r0 rs err,
       let loc := config.location (agent.cfg (agent.self s)) in
       let seeded := match agent.messages (agent.self s) with
                     | [] => [agent.mkMessage "system" agent.systemPrompt]
                     | _ :: _ => agent.messages (agent.self s)
                     end in
       agent.SearchNearby W (config.Lat loc) (config.Lng loc) (config.Radius loc) ""
         = go.Ok found →
       agent.ranked (agent.env W) (agent.self s) found = r0 :: rs →
       (∀ ms, agent.LLM_Chat W ms = go.Err err) →
       ∃ prompt,
         (agent.GetRecommendation W mealType s).1
           = go.Err ("LLM 调用失败: " +:+ err)
         ∧ agent.lastRestaurants
             (agent.self (agent.GetRecommendation W mealType s).2) = r0 :: rs
         ∧ agent.messages
             (agent.self (agent.GetRecommendation W mealType s).2)
           = seeded ++ [agent.mkMessage "user" prompt]).
Proof.
  split.
  - intros input err Herr. unfold agent.forward_to_LLM. simpl. by rewrite Herr.
  - intros mealType found r0 rs err loc seeded Hfound Hranked Herr.
    subst loc seeded. unfold agent.GetRecommendation.
    destruct s as [[c h p ms ex last] fs cs].
    cbn [agent.self agent.cfg agent.messages agent.files agent.calls] in *.
    rewrite Hfound, Hranked. cbv zeta. unfold agent.set_lastRestaurants.
    cbn [agent.self agent.cfg agent.messages agent.files agent.calls].
    destruct ms as [|m ms]; rewrite Herr; eexists; simpl; done.
Qed.

Lemma LLM_failure_keeps_the_turn_witness :
  agent.forward_to_LLM ex_world_llm_down "你好" ex_sys
  = (go.Err "503",
     agent.mkSys
       (agent.set_messages [agent.mkMessage "user" "你好"] ex_agent) ∅
       [agent.LLMCall [agent.mkMessage "user" "你好"]])
  ∧ ∃ prompt,
      (agent.GetRecommendation ex_world_llm_down "lunch" ex_sys).1
        = go.Err ("LLM 调用失败: " +:+ "503")
      ∧ agent.lastRestaurants
          (agent.self (agent.GetRecommendation ex_world_llm_down "lunch" ex_sys).2)
        = [tools.set_Weight 150 ex_sichuan; tools.set_Weight 100 ex_noodle]
      ∧ agent.messages
          (agent.self (agent.GetRecommendation ex_world_llm_down "lunch" ex_sys).2)
        = [agent.mkMessage "system" agent.systemPrompt]
          ++ [agent.mkMessage "user" prompt].
Proof.
  destruct (LLM_failure_keeps_the_turn ex_world_llm_down ex_sys) as [Hchat Hrec].
  split.
  - apply (Hchat "你好" "503"). reflexivity.
  - apply (Hrec "lunch" [ex_hotpot; ex_noodle; ex_sichuan]
             (tools.set_Weight 150 ex_sichuan) [tools.set_Weight 100 ex_noodle]
             "503").
    + reflexivity.
    + vm_compute. reflexivity.
    + reflexivity.
Defined.

Lemma parseExclusion_NoDup input ex :
  NoDup ex → NoDup (agent.parseExclusion input ex).
Proof.
  intros Hex. rewrite parseExclusion_eq. apply NoDup_app. split; [done|]. split.
  - intros kw Hin [[_ Hout] _]%list_elem_of_filter. done.
  - apply NoDup_filter, exclusion_keywords_NoDup.
Qed.

Lemma filter_none {A} (P : A → Prop) `{∀ x, Decision (P x)} (l : list A) :
  (∀ x, x ∈ l → ¬ P x) → filter P l = [].
Proof.
  induction l as [|x l IH]; intros Hno; [done|].
  rewrite filter_cons, decide_False by (apply Hno; left).
  apply IH. intros y Hy. apply Hno. by right.
Qed.

Lemma parseExclusion_idempotent input ex :
  agent.parseExclusion input (agent.parseExclusion input ex)
  = agent.parseExclusion input ex.
Proof.
  rewrite (parseExclusion_eq input (agent.parseExclusion input ex)).
  rewrite filter_none; [by rewrite app_nil_r|].
  intros kw Hkw [Hc Hout]. apply Hout. rewrite parseExclusion_eq.
  destruct (decide (kw ∈ ex)) as [Hin|Hnin]; apply elem_of_app; [by left|].
  right. apply list_elem_of_filter. done.
Qed.

Lemma Chat_tempExclude W input s :
  agent.tempExclude (agent.self (agent.Chat W input s).2)
  = if agent.exclusion_intent input
    then agent.parseExclusion input (agent.tempExclude (agent.self s))
    else agent.tempExclude (agent.self s).
Proof.
  unfold agent.Chat.
  set (s1 := if agent.exclusion_intent input then _ else s).
  assert (Hs1 : agent.tempExclude (agent.self s1)
                = if agent.exclusion_intent input
                  then agent.parseExclusion input (agent.tempExclude (agent.self s))
                  else agent.tempExclude (agent.self s))
    by (subst s1; by destruct (agent.exclusion_intent input)).
  rewrite <- Hs1.
  destruct (agent.isConfirmation input);
    [apply confirmChoice_effects|].
  destruct (agent.recommendation_intent input);
    [apply GetRecommendation_effects | apply forward_to_LLM_effects].
Qed.

(** X9.  [Chat] keeps the temporary-exclusion list free of duplicates,
    never removes a keyword from it, adds only keywords of its vocabulary
    that occur in the turn, and adds nothing when the same turn is
    repeated. *)
Theorem Chat_exclusions_invariant W W' input s :
  let once := (agent.Chat W input s).2 in
  let twice := (agent.Chat W' input once).2 in
  (NoDup (agent.tempExclude (agent.self s)) →
   NoDup (agent.tempExclude (agent.self once)))
  ∧ (∀ kw, kw ∈ agent.tempExclude (agent.self once) →
           kw ∈ agent.tempExclude (agent.self s) ∨
           (kw ∈ agent.exclusion_keywords ∧ go.Contains input kw = true))
  ∧ (∀ kw, kw ∈ agent.tempExclude (agent.self s) →
           kw ∈ agent.tempExclude (agent.self once))
  ∧ agent.tempExclude (agent.self twice) = agent.tempExclude (agent.self once).
Proof.
  intros once twice. subst once twice. rewrite !Chat_tempExclude.
  destruct (agent.exclusion_intent input); [|repeat split; auto].
  split; [apply parseExclusion_NoDup|]. split; [|split].
  - intros kw. rewrite parseExclusion_eq, elem_of_app, list_elem_of_filter.
    tauto.
  - intros kw Hin. rewrite parseExclusion_eq. apply elem_of_app. by left.
  - apply parseExclusion_idempotent.
Qed.

Lemma Chat_exclusions_invariant_witness :
  NoDup (agent.tempExclude
           (agent.self (agent.Chat ex_world "不想吃火锅，也不要面" ex_sys).2)).
Proof.
  apply (Chat_exclusions_invariant ex_world ex_world "不想吃火锅，也不要面" ex_sys).
  constructor.
Defined.

(** ** The order of dispatch in [Chat] *)

Lemma forward_to_LLM_keeps W input s :
  let out := agent.forward_to_LLM W input s in
  agent.history (agent.self out.2) = agent.history (agent.self s)
  ∧ agent.files out.2 = agent.files s.
Proof.
  intros out. subst out. unfold agent.forward_to_LLM. simpl.
  destruct (agent.LLM_Chat W _); done.
Qed.

Lemma confirmChoice_keeps W input s :
  let out := agent.confirmChoice W input s in
  agent.messages (agent.self out.2) = agent.messages (agent.self s)
  ∧ agent.lastRestaurants (agent.self out.2) = agent.lastRestaurants (agent.self s)
  ∧ agent.calls out.2 = agent.calls s.
Proof.
  intros out. subst out. unfold agent.confirmChoice.
  destruct (agent.extractSelection _ _) as [sel|]; [|done].
  destruct (memory.Add _ _ _ _) as [[[e|] h'] fs']; done.
Qed.

(** X17.  A confirmation turn calls no provider and leaves the messages
    and the last-offered list as they are.  A turn that is not a
    confirmation leaves the history and the files as they are, runs the
    recommendation pipeline exactly when it has a recommendation keyword,
    and otherwise makes the one call that forwards the conversation to the
    language model. *)
Theorem Chat_dispatch W input s :
  let out := agent.Chat W input s in
  (agent.isConfirmation input = true →
   agent.calls out.2 = agent.calls s
   ∧ agent.messages (agent.self out.2) = agent.messages (agent.self s)
   ∧ agent.lastRestaurants (agent.self out.2)
     = agent.lastRestaurants (agent.self s))
  ∧ (agent.isConfirmation input = false →
     agent.history (agent.self out.2) = agent.history (agent.self s)
     ∧ agent.files out.2 = agent.files s
     ∧ pipeline_ran (new_calls s out.2) = agent.recommendation_intent input
     ∧ (agent.recommendation_intent input = false →
        new_calls s out.2
        = [agent.LLMCall (agent.messages (agent.self s)
                          ++ [agent.mkMessage "user" input])])).
Proof.
  intros out. subst out. unfold agent.Chat.
  set (s1 := if agent.exclusion_intent input then _ else s).
  assert (Hs1 : agent.calls s1 = agent.calls s
                ∧ agent.messages (agent.self s1) = agent.messages (agent.self s)
                ∧ agent.lastRestaurants (agent.self s1)
                  = agent.lastRestaurants (agent.self s)
                ∧ agent.history (agent.self s1) = agent.history (agent.self s)
                ∧ agent.files s1 = agent.files s)
    by (subst s1; by destruct (agent.exclusion_intent input)).
  destruct Hs1 as (Hc1 & Hm1 & Hl1 & Hh1 & Hf1).
  destruct (agent.isConfirmation input).
  - split; [|done]. intros _.
    destruct (confirmChoice_keeps W input s1) as (Hm & Hl & Hc).
    by rewrite Hm, Hl, Hc.
  - split; [done|]. intros _. destruct (agent.recommendation_intent input).
    + destruct (GetRecommendation_effects W (agent.mealType_now (agent.env W)) s1)
        as (_ & Hf & Hh & rest & Hc).
      rewrite Hf, Hh. split_and!; try done.
      rewrite Hc1 in Hc. by rewrite (new_calls_app _ _ _ Hc).
    + destruct (forward_to_LLM_keeps W input s1) as [Hh Hf].
      destruct (forward_to_LLM_effects W input s1) as [_ Hc].
      rewrite Hh, Hf. rewrite Hc1, Hm1 in Hc.
      rewrite (new_calls_app _ _ _ Hc). done.
Qed.

Lemma Chat_dispatch_witness :
  agent.calls (agent.Chat ex_world "好的，推荐的第一个" ex_sys_two_offered).2
  = agent.calls ex_sys_two_offered.
Proof.
  apply (Chat_dispatch ex_world "好的，推荐的第一个" ex_sys_two_offered).
  reflexivity.
Defined.

(** ** Recently visited restaurants *)

Lemma filter_all {A} (P : A → Prop) `{∀ x, Decision (P x)} (l : list A) :
  (∀ x, P x) → filter P l = l.
Proof.
  intros HP. induction l as [|x l IH]; [done|].
  rewrite filter_cons, decide_True by done. by rewrite IH.
Qed.

Lemma elem_of_first_occurrences l x : x ∈ first_occurrences l ↔ x ∈ l.
Proof.
  induction l as [|y l IH]; simpl; [done|].
  rewrite !elem_of_cons, list_elem_of_filter, IH.
  destruct (decide (x = y)); tauto.
Qed.

Lemma NoDup_first_occurrences l : NoDup (first_occurrences l).
Proof.
  induction l as [|y l IH]; simpl; constructor.
  - rewrite list_elem_of_filter. tauto.
  - by apply NoDup_filter.
Qed.

Lemma recent_loop_first_occurrences l seen acc :
  (∀ x, default false (seen !! x) = true ↔ x ∈ acc) →
  (foldl memory.recent_step (seen, acc) l).2
  = acc ++ filter (λ y, y ∉ acc) (first_occurrences (memory.Restaurant <$> l)).
Proof.
  revert seen acc. induction l as [|r l IH]; intros seen acc Hseen; simpl.
  - by rewrite app_nil_r.
  - rewrite filter_cons, list_filter_filter.
    destruct (default false (seen !! memory.Restaurant r)) eqn:Hr.
    + apply Hseen in Hr. rewrite decide_False by tauto.
      rewrite (IH seen acc Hseen). f_equal. apply filter_agree.
      intros y _. split; [|tauto]. intros Hy. split; [done|]. by intros ->.
    + assert (memory.Restaurant r ∉ acc) as Hout.
      { intros Hin. apply Hseen in Hin. congruence. }
      rewrite decide_True by done.
      rewrite IH.
      * rewrite <- (assoc_L (++)). simpl. do 2 f_equal. apply filter_agree.
        intros y _. rewrite not_elem_of_app, list_elem_of_singleton. tauto.
      * intros x. rewrite elem_of_app, list_elem_of_singleton.
        destruct (decide (x = memory.Restaurant r)) as [->|Hne].
        -- rewrite lookup_insert_eq. simpl. tauto.
        -- rewrite lookup_insert_ne by done. rewrite Hseen. tauto.
Qed.

(** X11.  [GetRecentRestaurants] lists the restaurants of the records of
    the window, each once, in the order of their first record. *)
Theorem GetRecentRestaurants_first_seen E h days :
  let names := memory.Restaurant <$> memory.GetRecent E h days in
  memory.GetRecentRestaurants E h days = first_occurrences names
  ∧ NoDup (memory.GetRecentRestaurants E h days)
  ∧ (∀ x, x ∈ memory.GetRecentRestaurants E h days ↔ x ∈ names).
Proof.
  intros names. subst names.
  assert (Heq : memory.GetRecentRestaurants E h days
                = first_occurrences (memory.Restaurant <$> memory.GetRecent E h days)).
  { unfold memory.GetRecentRestaurants.
    rewrite recent_loop_first_occurrences.
    - simpl. apply filter_all. intros; apply not_elem_of_nil.
    - intros x. rewrite lookup_empty. simpl. split; [done|].
      by intros ?%elem_of_nil. }
  rewrite Heq. split; [done|]. split.
  - apply NoDup_first_occurrences.
  - apply elem_of_first_occurrences.
Qed.

(** ** The blacklists of the configuration *)

Lemma existsb_eq_name (l : list string) name :
  existsb (λ b, bool_decide (b = name)) l = true ↔ name ∈ l.
Proof.
  rewrite existsb_exists. split.
  - intros (b & Hin & Hb). apply bool_decide_eq_true in Hb as <-.
    by apply list_elem_of_In.
  - intros Hin. exists name. split; [by apply list_elem_of_In|].
    by apply bool_decide_eq_true.
Qed.

Lemma config_IsBlacklisted_true c name :
  config.IsBlacklisted c name = true
  ↔ name ∈ config.Blacklist c ∨ name ∈ config.TempExclude c.
Proof.
  unfold config.IsBlacklisted. rewrite <- !existsb_eq_name.
  destruct (existsb _ (config.Blacklist c)),
           (existsb _ (config.TempExclude c)); intuition congruence.
Qed.

Lemma config_IsBlacklisted_false c name :
  config.IsBlacklisted c name = false
  ↔ name ∉ config.Blacklist c ++ config.TempExclude c.
Proof.
  rewrite elem_of_app, <- config_IsBlacklisted_true.
  destruct (config.IsBlacklisted c name); intuition congruence.
Qed.

(** X12.  The blacklist step of [GetRecommendation] keeps exactly the
    candidates that [Config.IsBlacklisted] rejects; a name added with
    [AddTempExclude] is blacklisted and no candidate of that name is
    ranked; after [ClearTempExclude] only the static blacklist remains. *)
Theorem blacklists_filter_candidates E a found name :
  tools.FilterByBlacklist found
    (config.Blacklist (agent.cfg a) ++ config.TempExclude (agent.cfg a))
  = filter (λ r, config.IsBlacklisted (agent.cfg a) (tools.Name r) = false) found
  ∧ config.IsBlacklisted (config.AddTempExclude (agent.cfg a) name) name = true
  ∧ (config.IsBlacklisted (config.ClearTempExclude (agent.cfg a)) name = true
     ↔ name ∈ config.Blacklist (agent.cfg a))
  ∧ Forall (λ r, tools.Name r ≠ name)
      (agent.ranked E
         (agent.set_cfg (config.AddTempExclude (agent.cfg a) name) a) found).
Proof.
  split; [|split; [|split]].
  - unfold tools.FilterByBlacklist. apply filter_agree. intros r _.
    symmetry. apply config_IsBlacklisted_false.
  - apply config_IsBlacklisted_true. right. simpl. apply elem_of_app. right. left.
  - rewrite config_IsBlacklisted_true. simpl. split; [|by left].
    intros [?|?%elem_of_nil]; done.
  - apply Forall_forall. intros r Hin Heq.
    apply ranked_candidate in Hin as (_ & r0 & _ & Hr & _ & Hno & _).
    apply Hno. rewrite Hr in Heq. simpl in *. rewrite Heq.
    apply elem_of_app. right. left.
Qed.

(** ** The preference table *)

Lemma index_loop_insert name w0 (l : list preference.RestaurantPreference)
    (m : gmap string Z) :
  name ∉ preference.Name <$> l →
  foldl (λ m r, <[preference.Name r := preference.Weight r]> m)
        (<[name := w0]> m) l
  = <[name := w0]> (foldl (λ m r, <[preference.Name r := preference.Weight r]> m) m l).
Proof.
  revert m. induction l as [|r l IH]; intros m Hout; [done|]. simpl in *.
  apply not_elem_of_cons in Hout as [Hne Hout].
  rewrite <- IH by done. f_equal. by apply insert_insert_ne.
Qed.

Lemma update_first_found name w note l l' :
  preference.update_first name w note l = (l', true) →
  ∃ pre r post,
    l = pre ++ r :: post ∧ preference.Name r = name
    ∧ l' = pre ++ preference.mkRestaurantPreference name w note :: post.
Proof.
  revert l'. induction l as [|r l IH]; intros l'; simpl; [done|].
  destruct (decide (preference.Name r = name)) as [Hr|Hr].
  - intros [= <-]. exists [], r, l. by rewrite Hr.
  - destruct (preference.update_first name w note l) as [rest' found].
    intros [= <- ->]. destruct (IH rest' eq_refl) as (pre & r1 & post & -> & ? & ->).
    by exists (r :: pre), r1, post.
Qed.

Lemma update_first_missing name w note l l' :
  preference.update_first name w note l = (l', false) →
  l' = l ∧ name ∉ preference.Name <$> l.
Proof.
  revert l'. induction l as [|r l IH]; intros l'; simpl.
  - intros [= <-]. split; [done | apply not_elem_of_nil].
  - destruct (decide (preference.Name r = name)) as [Hr|Hr]; [done|].
    destruct (preference.update_first name w note l) as [rest' found].
    intros [= <- ->]. destruct (IH rest' eq_refl) as [-> Hout].
    split; [done|]. apply not_elem_of_cons. done.
Qed.

(** X13.  After [SetRestaurantWeight] the weight of that name is the one
    set, every other name keeps its weight, the name is blacklisted exactly
    when the weight is 0, and the category weights are untouched.  If the
    names of the list are distinct and the index is the one built from the
    list, this is again so afterwards. *)
Theorem SetRestaurantWeight_round_trip restaurants p name weight note :
  let out := preference.SetRestaurantWeight restaurants p name weight note in
  preference.GetRestaurantWeight out.2 name = weight
  ∧ (∀ other, other ≠ name →
       preference.GetRestaurantWeight out.2 other
       = preference.GetRestaurantWeight p other)
  ∧ preference.IsBlacklisted out.2 name = (weight =? 0)
  ∧ preference.categoryMap out.2 = preference.categoryMap p
  ∧ (NoDup (preference.Name <$> restaurants) →
     preference.restaurantMap p = preference.index_restaurants restaurants →
     preference.restaurantMap out.2 = preference.index_restaurants out.1
     ∧ NoDup (preference.Name <$> out.1)).
Proof.
  intros out. subst out. unfold preference.SetRestaurantWeight.
  destruct (preference.update_first name weight note restaurants)
    as [l' found] eqn:Hupd. simpl.
  unfold preference.GetRestaurantWeight, preference.IsBlacklisted. simpl.
  rewrite lookup_insert_eq.
  split; [done|]. split; [by intros other Hne; rewrite lookup_insert_ne|].
  split; [done|]. split; [done|].
  intros Hnd Hidx. rewrite Hidx. unfold preference.index_restaurants.
  destruct found.
  - apply update_first_found in Hupd as (pre & r & post & -> & Hr & ->).
    rewrite fmap_app, fmap_cons in Hnd.
    apply NoDup_app in Hnd as (Hpre & Hdisj & Hpost).
    apply NoDup_cons in Hpost as [Hout Hpost]. rewrite Hr in Hout, Hdisj.
    split.
    + rewrite !foldl_app. simpl. rewrite Hr.
      rewrite !index_loop_insert by done. by rewrite insert_insert_eq.
    + rewrite fmap_app, fmap_cons. simpl.
      apply NoDup_app. split; [done|]. split; [done|]. by apply NoDup_cons.
  - apply update_first_missing in Hupd as [-> Hout]. split.
    + by rewrite foldl_app.
    + rewrite fmap_app. simpl. apply NoDup_app. split; [done|]. split.
      * intros x Hx [->|?%elem_of_nil]%elem_of_cons; done.
      * apply NoDup_singleton.
Qed.

Lemma SetRestaurantWeight_round_trip_witness :
  preference.restaurantMap
    (preference.SetRestaurantWeight
       [preference.mkRestaurantPreference "A" 0 ""] ex_pref "A" 120 "again").2
  = preference.index_restaurants
      (preference.SetRestaurantWeight
         [preference.mkRestaurantPreference "A" 0 ""] ex_pref "A" 120 "again").1.
Proof.
  apply (SetRestaurantWeight_round_trip
           [preference.mkRestaurantPreference "A" 0 ""] ex_pref "A" 120 "again").
  - repeat constructor. apply not_elem_of_nil.
  - reflexivity.
Defined.

(** ** Classifying candidates *)

Lemma existsb_false_Forall {A} (f : A → bool) l :
  existsb f l = false ↔ Forall (λ x, f x = false) l.
Proof.
  induction l as [|x l IH]; simpl.
  - split; [constructor | done].
  - rewrite orb_false_iff, Forall_cons, IH. tauto.
Qed.

Lemma existsb_true_Exists {A} (f : A → bool) l :
  existsb f l = true ↔ Exists (λ x, f x = true) l.
Proof.
  induction l as [|x l IH]; simpl.
  - split; [done | by intros ?%Exists_nil].
  - rewrite orb_true_iff, Exists_cons, IH. tauto.
Qed.

(** X14.  [ClassifyRestaurant] looks for the quick-meal keywords first:
    a candidate is a quick meal exactly when one of them occurs in its name
    followed by its type, a full meal exactly when none of them and one of
    the full-meal keywords occurs, and other exactly when none of either
    occurs.  [ClassifyAllRestaurants] changes nothing but the category. *)
Theorem ClassifyRestaurant_quick_first r rs :
  let text := tools.Name r +:+ tools.Type_ r in
  (tools.ClassifyRestaurant r = tools.CategoryQuickMeal
   ↔ Exists (λ kw, go.Contains text kw = true) tools.quickMealKeywords)
  ∧ (tools.ClassifyRestaurant r = tools.CategoryFullMeal
     ↔ Forall (λ kw, go.Contains text kw = false) tools.quickMealKeywords
       ∧ Exists (λ kw, go.Contains text kw = true) tools.fullMealKeywords)
  ∧ (tools.ClassifyRestaurant r = tools.CategoryOther
     ↔ Forall (λ kw, go.Contains text kw = false) tools.quickMealKeywords
       ∧ Forall (λ kw, go.Contains text kw = false) tools.fullMealKeywords)
  ∧ tools.ClassifyAllRestaurants rs
    = (λ r, tools.set_Category (tools.ClassifyRestaurant r) r) <$> rs
  ∧ tools.Name <$> tools.ClassifyAllRestaurants rs = tools.Name <$> rs
  ∧ tools.Weight <$> tools.ClassifyAllRestaurants rs = tools.Weight <$> rs.
Proof.
  intros text. subst text. unfold tools.ClassifyRestaurant.
  rewrite <- !existsb_true_Exists, <- !existsb_false_Forall.
  destruct (existsb _ tools.quickMealKeywords),
           (existsb _ tools.fullMealKeywords);
    (split; [|split; [|split; [|split; [done|split]]]]);
    try (split; [done || intros [? ?]; done | done || intros [? ?]; done]);
    try (split; done);
    unfold tools.ClassifyAllRestaurants; rewrite <- list_fmap_compose; done.
Qed.

(** A noodle shop that also serves hot pot counts as a quick meal. *)
Lemma ClassifyRestaurant_hotpot_noodles :
  tools.ClassifyRestaurant
    (tools.mkRestaurant "老王火锅面馆" "餐饮服务;中餐厅;火锅" "" "" "" "" "" 0 "")
  = tools.CategoryQuickMeal.
Proof. vm_compute. reflexivity. Qed.

(** ** Retrying the weather provider *)

(** X15.  [GetWeather] asks the provider at most three times, sleeping
    one second before the second and two before the third attempt; it
    returns the first answer, every attempt before it having failed, and
    after three failures the last error behind a fixed prefix. *)
Theorem GetWeather_three_attempts once :
  let '(res, calls, slept) := tools.GetWeather once in
  (1 <= calls <= 3)%nat
  ∧ slept = Z.of_nat (calls * (calls - 1) / 2)
  ∧ (∀ j, (j < calls - 1)%nat → ∃ e, once j = go.Err e)
  ∧ match res with
    | go.Ok info => once (calls - 1)%nat = go.Ok info
    | go.Err e =>
        calls = 3%nat
        ∧ ∃ last, once 2%nat = go.Err last
                  ∧ e = "获取天气失败（已重试3次）: " +:+ last
    end.
Proof.
  unfold tools.GetWeather. simpl.
  destruct (once 0%nat) as [i0|e0] eqn:H0; simpl.
  { repeat split; try lia; try done. }
  destruct (once 1%nat) as [i1|e1] eqn:H1; simpl.
  { repeat split; try lia; try done.
    intros j Hj. assert (j = 0%nat) as -> by lia. eauto. }
  destruct (once 2%nat) as [i2|e2] eqn:H2; simpl.
  { repeat split; try lia; try done.
    intros j Hj. assert (j = 0 ∨ j = 1)%nat as [->| ->] by lia; eauto. }
  repeat split; try lia; try done.
  - intros j Hj. assert (j = 0 ∨ j = 1)%nat as [->| ->] by lia; eauto.
  - eauto.
Qed.

(** ** The scheduler: further properties *)

Lemma GetRecommendation_keeps W mealType s :
  let out := agent.GetRecommendation W mealType s in
  agent.cfg (agent.self out.2) = agent.cfg (agent.self s)
  ∧ agent.pref (agent.self out.2) = agent.pref (agent.self s)
  ∧ agent.history (agent.self out.2) = agent.history (agent.self s)
  ∧ agent.files out.2 = agent.files s.
Proof.
  intros out. subst out. unfold agent.GetRecommendation.
  destruct s as [[c h p ms ex last] fs cs].
  cbn [agent.self agent.cfg agent.messages agent.files agent.calls].
  destruct (agent.SearchNearby W _ _ _ _) as [found|err]; [|done].
  destruct (agent.ranked _ _ _) as [|r0 rs]; [done|].
  cbv zeta. unfold agent.set_lastRestaurants.
  cbn [agent.self agent.cfg agent.messages agent.files agent.calls].
  destruct ms as [|m ms];
    match goal with
    | |- context [agent.LLM_Chat W ?msgs] => destruct (agent.LLM_Chat W msgs)
    end; done.
Qed.

Lemma triggerRecommendation_keeps W mealType sch :
  let sch' := agent.triggerRecommendation W mealType sch in
  agent.cfg (agent.self (agent.agent_ sch')) = agent.cfg (agent.self (agent.agent_ sch))
  ∧ agent.pref (agent.self (agent.agent_ sch'))
    = agent.pref (agent.self (agent.agent_ sch))
  ∧ agent.history (agent.self (agent.agent_ sch'))
    = agent.history (agent.self (agent.agent_ sch))
  ∧ agent.files (agent.agent_ sch') = agent.files (agent.agent_ sch)
  ∧ agent.lunchTime sch' = agent.lunchTime sch
  ∧ agent.dinnerTime sch' = agent.dinnerTime sch
  ∧ ∃ msg, agent.notifyCh sch' = agent.notifyCh sch ++ [msg].
Proof.
  intros sch'. subst sch'. unfold agent.triggerRecommendation.
  pose proof (GetRecommendation_keeps W mealType
                (agent.with_self (agent.Reset (agent.self (agent.agent_ sch)))
                                 (agent.agent_ sch))) as (Hc & Hp & Hh & Hf).
  destruct (agent.GetRecommendation W mealType _) as [[rec|err] s']; simpl in *;
    rewrite Hc, Hp, Hh, Hf; split_and!; eauto.
Qed.

(** X16.  A firing of the scheduler's ticker leaves [lastDate] at
    today's date and never changes the meal history, the files, the
    preferences, the static blacklist or the location; it empties the
    configuration's temporary exclusions exactly on a new day; on the same
    day and off the two trigger times it changes nothing at all; and it
    sends one notification exactly at a trigger time. *)
Theorem tick_effects W lastDate sch :
  let now := go.Now (agent.env W) in
  let out := agent.tick W lastDate sch in
  let a := agent.self (agent.agent_ sch) in
  let a' := agent.self (agent.agent_ out.2) in
  out.1 = go.date now
  ∧ agent.history a' = agent.history a
  ∧ agent.files (agent.agent_ out.2) = agent.files (agent.agent_ sch)
  ∧ agent.pref a' = agent.pref a
  ∧ config.Blacklist (agent.cfg a') = config.Blacklist (agent.cfg a)
  ∧ config.location (agent.cfg a') = config.location (agent.cfg a)
  ∧ config.TempExclude (agent.cfg a')
    = (if decide (go.date now ≠ lastDate) then []
       else config.TempExclude (agent.cfg a))
  ∧ (go.date now = lastDate →
     go.hhmm now ≠ agent.lunchTime sch →
     go.hhmm now ≠ agent.dinnerTime sch →
     out.2 = sch)
  ∧ (∃ sent, agent.notifyCh out.2 = agent.notifyCh sch ++ sent
             ∧ (length sent <= 1)%nat
             ∧ (sent ≠ [] ↔ go.hhmm now = agent.lunchTime sch
                             ∨ go.hhmm now = agent.dinnerTime sch)).
Proof.
  intros now out a a'. subst now out a a'. unfold agent.tick.
  set (rolled := if decide (go.date (go.Now (agent.env W)) ≠ lastDate)
                 then _ else _).
  assert (Hrolled :
    rolled.1 = go.date (go.Now (agent.env W))
    ∧ agent.history (agent.self (agent.agent_ rolled.2))
      = agent.history (agent.self (agent.agent_ sch))
    ∧ agent.files (agent.agent_ rolled.2) = agent.files (agent.agent_ sch)
    ∧ agent.pref (agent.self (agent.agent_ rolled.2))
      = agent.pref (agent.self (agent.agent_ sch))
    ∧ config.Blacklist (agent.cfg (agent.self (agent.agent_ rolled.2)))
      = config.Blacklist (agent.cfg (agent.self (agent.agent_ sch)))
    ∧ config.location (agent.cfg (agent.self (agent.agent_ rolled.2)))
      = config.location (agent.cfg (agent.self (agent.agent_ sch)))
    ∧ config.TempExclude (agent.cfg (agent.self (agent.agent_ rolled.2)))
      = (if decide (go.date (go.Now (agent.env W)) ≠ lastDate) then []
         else config.TempExclude (agent.cfg (agent.self (agent.agent_ sch))))
    ∧ agent.lunchTime rolled.2 = agent.lunchTime sch
    ∧ agent.dinnerTime rolled.2 = agent.dinnerTime sch
    ∧ agent.notifyCh rolled.2 = agent.notifyCh sch
    ∧ (go.date (go.Now (agent.env W)) = lastDate → rolled.2 = sch)).
  { subst rolled.
    destruct (decide (go.date (go.Now (agent.env W)) ≠ lastDate)) as [Hne|Heq];
      simpl; split_and!; try done.
    by destruct (decide (lastDate = go.date (go.Now (agent.env W)))). }
  destruct rolled as [lastDate' sch1]. simpl in Hrolled.
  destruct Hrolled as (Hd & Hh & Hf & Hp & Hb & Hl & Ht & Hlt & Hdt & Hn & Hid).
  rewrite Hlt, Hdt in *.
  destruct (decide (go.hhmm (go.Now (agent.env W)) = agent.lunchTime sch))
    as [Hlunch|Hlunch].
  { destruct (triggerRecommendation_keeps W "lunch" sch1)
      as (Hc' & Hp' & Hh' & Hf' & _ & _ & msg & Hmsg).
    simpl. rewrite Hc', Hp', Hh', Hf', Hmsg, Hn.
    split_and!; try done. exists [msg]. split_and!; auto.
    split; [by left | done]. }
  destruct (decide (go.hhmm (go.Now (agent.env W)) = agent.dinnerTime sch))
    as [Hdinner|Hdinner].
  { destruct (triggerRecommendation_keeps W "dinner" sch1)
      as (Hc' & Hp' & Hh' & Hf' & _ & _ & msg & Hmsg).
    simpl. rewrite Hc', Hp', Hh', Hf', Hmsg, Hn.
    split_and!; try done. exists [msg]. split_and!; auto.
    split; [by right | done]. }
  simpl. split_and!; try done; [by intros Hdate _ _; apply Hid|].
  exists []. rewrite app_nil_r. split_and!; [done | simpl; lia | tauto].
Qed.

Lemma tick_effects_witness :
  (agent.tick ex_world "2024-01-15"
     (agent.mkScheduler ex_sys "11:00" "17:00" [])).2
  = agent.mkScheduler ex_sys "11:00" "17:00" [].
Proof.
  apply (tick_effects ex_world "2024-01-15"
           (agent.mkScheduler ex_sys "11:00" "17:00" []));
    [reflexivity | discriminate | discriminate].
Defined.

(** ** Today's meals *)

(** X18.  After [RecordMeal] the meals of today are those of before
    followed by the new record, dated today, with the meal type of the
    hour, no rating and no note; the conversation, the exclusions of the
    session, the candidates last offered and the calls to the providers
    are as before. *)
Theorem RecordMeal_then_GetToday W restaurant category s :
  let E := agent.env W in
  let s' := (agent.RecordMeal W restaurant category s).2 in
  memory.GetToday E (agent.history (agent.self s'))
  = memory.GetToday E (agent.history (agent.self s))
    ++ [memory.mkMealRecord (go.date (go.Now E)) (agent.mealType_now E)
                            restaurant category 0 ""]
  ∧ agent.messages (agent.self s') = agent.messages (agent.self s)
  ∧ agent.tempExclude (agent.self s') = agent.tempExclude (agent.self s)
  ∧ agent.lastRestaurants (agent.self s') = agent.lastRestaurants (agent.self s)
  ∧ agent.calls s' = agent.calls s.
Proof.
  intros E s'. subst E s'. unfold agent.RecordMeal.
  pose proof (Add_Records_dated (agent.env W) (agent.mealType_now (agent.env W))
                restaurant category (agent.history (agent.self s))
                (agent.files s)) as Hrec.
  destruct (memory.Add _ _ _ _) as [[err h1] fs1]. simpl in *.
  split; [|done]. unfold memory.GetToday. rewrite Hrec, filter_app. f_equal.
  rewrite filter_cons, decide_True by done. done.
Qed.

(** ** The category weight and the order of the range *)

Lemma first_category_agree entries entries' typeStr :
  entries ≡ₚ entries' →
  (∀ c1 w1 c2 w2, (c1, w1) ∈ entries → (c2, w2) ∈ entries →
     go.Contains typeStr c1 = true → go.Contains typeStr c2 = true → w1 = w2) →
  snd <$> preference.first_category entries typeStr
  = snd <$> preference.first_category entries' typeStr.
Proof.
  intros Hperm Hagree.
  destruct (preference.first_category entries typeStr) as [[c w]|] eqn:H1,
           (preference.first_category entries' typeStr) as [[c' w']|] eqn:H2;
    simpl; try done.
  - apply first_category_Some in H1 as [Hin Hc], H2 as [Hin' Hc'].
    f_equal. apply (Hagree c w c' w'); try done. by rewrite Hperm.
  - apply first_category_Some in H1 as [Hin Hc].
    rewrite Hperm in Hin.
    by rewrite (first_category_None _ _ _ _ H2 Hin) in Hc.
  - apply first_category_Some in H2 as [Hin Hc].
    rewrite <- Hperm in Hin.
    by rewrite (first_category_None _ _ _ _ H1 Hin) in Hc.
Qed.

Lemma GetCategoryWeight_first E k p typeStr :
  preference.GetCategoryWeight E k p typeStr
  = default 100
      (snd <$> preference.first_category
                 (go.range_order E k (preference.categoryMap p)) typeStr).
Proof.
  unfold preference.GetCategoryWeight.
  by destruct (preference.first_category _ _) as [[c w]|].
Qed.

(** X19.  Where the categories of the preference table that occur in a
    type string all carry the same weight, the category weight does not
    depend on the order in which the runtime ranges over the table; the
    weight is 100 or the weight of a category that occurs in the type
    string. *)
Theorem GetCategoryWeight_order_independent E E' k k' p typeStr :
  go.range_sound E →
  go.range_sound E' →
  (∀ c1 w1 c2 w2,
     preference.categoryMap p !! c1 = Some w1 →
     preference.categoryMap p !! c2 = Some w2 →
     go.Contains typeStr c1 = true → go.Contains typeStr c2 = true → w1 = w2) →
  preference.GetCategoryWeight E k p typeStr
  = preference.GetCategoryWeight E' k' p typeStr
  ∧ (preference.GetCategoryWeight E k p typeStr = 100
     ∨ ∃ c, preference.categoryMap p !! c
            = Some (preference.GetCategoryWeight E k p typeStr)
            ∧ go.Contains typeStr c = true).
Proof.
  intros Hs Hs' Hagree. split.
  - rewrite !GetCategoryWeight_first. f_equal. apply first_category_agree.
    + by rewrite (Hs k), (Hs' k').
    + intros c1 w1 c2 w2 Hin1 Hin2.
      apply range_order_entry in Hin1, Hin2; try done. by apply Hagree.
  - unfold preference.GetCategoryWeight.
    destruct (preference.first_category (go.range_order E k _) typeStr)
      as [[c w]|] eqn:Hfc; [|by left].
    right. apply first_category_Some in Hfc as [Hin Hc].
    apply range_order_entry in Hin; [|done]. eauto.
Qed.

Lemma GetCategoryWeight_order_independent_witness :
  preference.GetCategoryWeight ex_env 0 ex_pref (tools.Type_ ex_sichuan)
  = preference.GetCategoryWeight ex_env_reversed 0 ex_pref (tools.Type_ ex_sichuan).
Proof.
  assert (H1 : go.range_sound ex_env) by (intros k m; reflexivity).
  assert (H2 : go.range_sound ex_env_reversed)
    by (intros k m; apply reverse_Permutation).
  assert (H3 : ∀ c1 w1 c2 w2,
            preference.categoryMap ex_pref !! c1 = Some w1 →
            preference.categoryMap ex_pref !! c2 = Some w2 →
            go.Contains (tools.Type_ ex_sichuan) c1 = true →
            go.Contains (tools.Type_ ex_sichuan) c2 = true → w1 = w2).
  { intros c1 w1 c2 w2 Hc1 Hc2 _ _. simpl in Hc1, Hc2.
    apply lookup_singleton_Some in Hc1 as [_ <-].
    by apply lookup_singleton_Some in Hc2 as [_ <-]. }
  exact (proj1 (GetCategoryWeight_order_independent ex_env ex_env_reversed 0 0
                  ex_pref (tools.Type_ ex_sichuan) H1 H2 H3)).
Defined.

(** With two categories of different weight in one type string the order
    of the range decides. *)
Lemma GetCategoryWeight_depends_on_order :
  preference.GetCategoryWeight ex_env 0 ex_pref_overlap (tools.Type_ ex_sichuan)
  ≠ preference.GetCategoryWeight ex_env_reversed 0 ex_pref_overlap
      (tools.Type_ ex_sichuan).
Proof. vm_compute. discriminate. Qed.

(** ** Sorting by exchange, over any key *)

Section exchange.
Context {A : Type} (key : A → Z).
Implicit Types (p : A) (rest pre seen l : list A).

Lemma carry_length p rest : length (carry key p rest).2 = length rest.
Proof.
  revert p. induction rest as [|x xs IH]; intros p; simpl; [done|].
  case_decide.
  - specialize (IH x). destruct (carry key x xs); simpl in *. by rewrite IH.
  - specialize (IH p). destruct (carry key p xs); simpl in *. by rewrite IH.
Qed.

Lemma carry_perm p rest :
  (carry key p rest).1 :: (carry key p rest).2 ≡ₚ p :: rest.
Proof.
  revert p. induction rest as [|x xs IH]; intros p; simpl; [done|].
  case_decide.
  - specialize (IH x). destruct (carry key x xs) as [p' xs']; simpl in *.
    etrans; [apply perm_swap|]. by apply perm_skip.
  - specialize (IH p). destruct (carry key p xs) as [p' xs']; simpl in *.
    etrans; [apply perm_swap|]. etrans; [apply perm_skip, IH|]. apply perm_swap.
Qed.

Lemma carry_max p rest :
  key p <= key (carry key p rest).1 ∧
  Forall (key_desc key (carry key p rest).1) (carry key p rest).2.
Proof.
  revert p. induction rest as [|x xs IH]; intros p; simpl.
  - split; [lia | constructor].
  - case_decide.
    + destruct (IH x) as [Hx Hall]. destruct (carry key x xs) as [p' xs']; simpl in *.
      split; [lia|]. constructor; [unfold key_desc; lia | done].
    + destruct (IH p) as [Hp Hall]. destruct (carry key p xs) as [p' xs']; simpl in *.
      split; [lia|]. constructor; [unfold key_desc; lia | done].
Qed.

Lemma carry_sort_perm n l : carry_sort key n l ≡ₚ l.
Proof.
  revert l. induction n as [|n IH]; intros [|p rest]; simpl; try done.
  pose proof (carry_perm p rest) as Hp.
  destruct (carry key p rest) as [p' rest']; simpl in *.
  by rewrite IH.
Qed.

Lemma carry_sort_sorted n l :
  length l = S n → StronglySorted (key_desc key) (carry_sort key n l).
Proof.
  revert l. induction n as [|n IH]; intros [|p rest] Hlen; simpl in *; try done.
  - destruct rest; [|done]. repeat constructor.
  - pose proof (carry_max p rest) as [_ Hall].
    pose proof (carry_length p rest) as Hl.
    destruct (carry key p rest) as [p' rest']; simpl in *.
    constructor.
    + apply IH. lia.
    + by rewrite carry_sort_perm.
Qed.

Lemma exchange_inner_loop_carry pre p seen rest :
  foldl (λ acc j, exchange_step key (length pre) j acc)
        (pre ++ p :: seen ++ rest)
        (seq (S (length pre + length seen)) (length rest))
  = pre ++ (carry key p rest).1 :: seen ++ (carry key p rest).2.
Proof.
  revert p seen. induction rest as [|x xs IH]; intros p seen; simpl; [done|].
  assert (Hi : (pre ++ p :: seen ++ x :: xs) !! length pre = Some p)
    by (by rewrite list_lookup_middle).
  assert (Hj : (pre ++ p :: seen ++ x :: xs) !! S (length pre + length seen) = Some x).
  { rewrite lookup_app_r by lia.
    replace (S (length pre + length seen) - length pre)%nat
      with (S (length seen)) by lia.
    simpl. by rewrite list_lookup_middle. }
  unfold exchange_step at 2. rewrite Hi, Hj.
  replace (S (S (length pre + length seen)))
    with (S (length pre + length (seen ++ [p]))) by (rewrite length_app; simpl; lia).
  replace (S (length pre + length seen))
    with (length pre + S (length seen))%nat by lia.
  case_decide.
  - rewrite (insert_app_r pre (p :: seen ++ x :: xs) (S (length seen)) p). simpl.
    rewrite (insert_app_r_alt seen (x :: xs) (length seen) p) by lia.
    rewrite Nat.sub_diag. simpl.
    rewrite (insert_app_r_alt pre (p :: seen ++ p :: xs) (length pre) x) by lia.
    rewrite Nat.sub_diag. simpl.
    replace (pre ++ x :: seen ++ p :: xs) with (pre ++ x :: (seen ++ [p]) ++ xs)
      by (by rewrite <- (assoc_L (++) seen)).
    rewrite IH. destruct (carry key x xs) as [p' xs']; simpl.
    by rewrite <- (assoc_L (++) seen).
  - replace (pre ++ p :: seen ++ x :: xs) with (pre ++ p :: (seen ++ [x]) ++ xs)
      by (by rewrite <- (assoc_L (++) seen)).
    replace (length (seen ++ [p])) with (length (seen ++ [x]))
      by (by rewrite !length_app).
    rewrite IH. destruct (carry key p xs) as [p' xs']; simpl.
    by rewrite <- (assoc_L (++) seen).
Qed.

Lemma exchange_inner_carry pre p rest :
  exchange_inner key (length pre) (pre ++ p :: rest)
  = pre ++ (carry key p rest).1 :: (carry key p rest).2.
Proof.
  unfold exchange_inner.
  replace (length (pre ++ p :: rest) - S (length pre))%nat with (length rest)
    by (rewrite length_app; simpl; lia).
  pose proof (exchange_inner_loop_carry pre p [] rest) as H. simpl in H.
  by rewrite Nat.add_0_r in H.
Qed.

Lemma exchange_outer_loop_carry n pre rest :
  length rest = S n →
  foldl (λ acc i, exchange_inner key i acc) (pre ++ rest) (seq (length pre) n)
  = pre ++ carry_sort key n rest.
Proof.
  revert pre rest. induction n as [|n IH]; intros pre [|p rest] Hlen;
    simpl in *; try done.
  rewrite exchange_inner_carry.
  pose proof (carry_length p rest) as Hl.
  destruct (carry key p rest) as [p' rest']; simpl in *.
  replace (pre ++ p' :: rest') with ((pre ++ [p']) ++ rest')
    by (by rewrite <- (assoc_L (++) pre)).
  replace (S (length pre)) with (length (pre ++ [p']))
    by (rewrite length_app; simpl; lia).
  rewrite IH by lia. by rewrite <- (assoc_L (++) pre).
Qed.

Lemma exchange_sort_carry_sort rs :
  exchange_sort key rs = carry_sort key (length rs - 1) rs.
Proof.
  destruct rs as [|p rest]; [done|].
  unfold exchange_sort.
  pose proof (exchange_outer_loop_carry (length rest) [] (p :: rest)) as H.
  simpl in *. rewrite Nat.sub_0_r. by apply H.
Qed.

Lemma exchange_sort_perm rs : exchange_sort key rs ≡ₚ rs.
Proof. rewrite exchange_sort_carry_sort. apply carry_sort_perm. Qed.

Lemma exchange_sort_sorted rs : StronglySorted (key_desc key) (exchange_sort key rs).
Proof.
  rewrite exchange_sort_carry_sort.
  destruct rs as [|p rest]; [constructor|].
  apply carry_sort_sorted. simpl. lia.
Qed.


End exchange.

(** ** The most frequent restaurants *)

Lemma sort_by_count_exchange sorted :
  memory.sort_by_count sorted = exchange_sort memory.Count sorted.
Proof. reflexivity. Qed.

Lemma count_visits_snoc l r :
  memory.count_visits (l ++ [r])
  = <[memory.Restaurant r :=
        go.int_add (default 0 (memory.count_visits l !! memory.Restaurant r)) 1]>
      (memory.count_visits l).
Proof. unfold memory.count_visits. by rewrite foldl_app. Qed.

Lemma count_visits_lookup l name :
  Z.of_nat (length l) < 2 ^ 63 →
  memory.count_visits l !! name
  = let n := Z.of_nat (length (filter (λ r, memory.Restaurant r = name) l)) in
    if decide (n = 0) then None else Some n.
Proof.
  induction l as [|r l IH] using rev_ind; intros Hlen; [done|].
  rewrite length_app in Hlen. simpl in Hlen.
  rewrite count_visits_snoc, filter_app, length_app.
  pose proof (length_filter (λ r, memory.Restaurant r = name) l) as Hle.
  specialize (IH ltac:(lia)). cbv zeta in *.
  rewrite filter_cons, filter_nil.
  destruct (decide (memory.Restaurant r = name)) as [->|Hne].
  - rewrite lookup_insert_eq, IH. change (length [r]) with 1%nat.
    rewrite Nat2Z.inj_add. change (Z.of_nat 1) with 1.
    rewrite (decide_False (P := _ + 1 = 0)) by lia. f_equal.
    case_decide as H0; simpl; unfold go.int_add; rewrite wrap64_id;
      unfold go.is_int; lia.
  - rewrite lookup_insert_ne by done. rewrite IH. simpl.
    by rewrite Nat.add_0_r.
Qed.

(** X20.  With fewer than 2^63 records and a capacity [topN] between 0
    and 2^44, [GetFrequent] returns at most [topN] restaurant names, all
    different, each of a restaurant on record, in descending order of the
    number of their records; a restaurant on record that is left out has
    no more records than any restaurant returned, and then exactly [topN]
    names are returned. *)
Theorem GetFrequent_top E h topN :
  go.range_sound E →
  Z.of_nat (length (memory.Records h)) < 2 ^ 63 →
  0 <= topN <= 2 ^ 44 →
  ∃ names,
    memory.GetFrequent E h topN = Some names
    ∧ NoDup names
    ∧ Z.of_nat (length names) <= topN
    ∧ Forall (λ n, 0 < visits h n) names
    ∧ StronglySorted (λ a b, visits h b <= visits h a) names
    ∧ ∀ name, 0 < visits h name → name ∉ names →
        Z.of_nat (length names) = topN
        ∧ Forall (λ n, visits h name <= visits h n) names.
Proof.
  intros Hs Hlen Htop. unfold memory.GetFrequent.
  set (count := memory.count_visits (memory.Records h)).
  set (entries := (λ e : string * Z, memory.mkkv e.1 e.2) <$> go.range_order E 0 count).
  rewrite sort_by_count_exchange.
  set (sorted := exchange_sort memory.Count entries).
  assert (Hok : go.makeslice_ok 16 topN = true).
  { unfold go.makeslice_ok. apply andb_true_iff. split; [lia|].
    apply Z.leb_le. change (2 ^ 48) with (16 * 2 ^ 44). lia. }
  rewrite Hok. eexists. split; [reflexivity|].
  assert (Hperm : sorted ≡ₚ entries) by apply exchange_sort_perm.
  assert (Hsorted : StronglySorted (key_desc memory.Count) sorted)
    by apply exchange_sort_sorted.
  assert (Hentry : ∀ e, e ∈ sorted ↔
            0 < visits h (memory.Name e) ∧ memory.Count e = visits h (memory.Name e)).
  { intros [n c]. rewrite Hperm. subst entries. rewrite list_elem_of_fmap. simpl.
    split.
    - intros ([k v] & [= -> ->] & Hin). simpl.
      apply range_order_entry in Hin; [|done].
      subst count. rewrite count_visits_lookup in Hin by done. cbv zeta in Hin.
      unfold visits. case_decide; [done|]. injection Hin as <-. lia.
    - intros [Hpos ->]. exists (n, visits h n). split; [done|].
      rewrite (Hs 0%nat count). apply elem_of_map_to_list.
      subst count. rewrite count_visits_lookup by done. cbv zeta.
      unfold visits in *. rewrite decide_False by lia. done. }
  assert (Hnodup : NoDup (memory.Name <$> sorted)).
  { rewrite Hperm. subst entries. rewrite <- list_fmap_compose.
    rewrite (Hs 0%nat count). apply NoDup_fst_map_to_list. }
  rewrite <- (take_drop (Z.to_nat topN) sorted) in Hsorted, Hnodup.
  rewrite fmap_app in Hnodup. apply NoDup_app in Hnodup as (Hnd1 & Hdisj & _).
  assert (Htake : ∀ e, e ∈ take (Z.to_nat topN) sorted →
            memory.Count e = visits h (memory.Name e) ∧ 0 < visits h (memory.Name e)).
  { intros e Hin. apply subseteq_take, Hentry in Hin. tauto. }
  split_and!.
  - done.
  - rewrite length_fmap, length_take. lia.
  - apply Forall_fmap, Forall_forall. intros e Hin. simpl. by apply Htake.
  - apply StronglySorted_app_1_l in Hsorted.
    revert Hsorted Htake. generalize (take (Z.to_nat topN) sorted) as l. clear.
    intros l Hsorted Hl.
    induction l as [|e l IH]; simpl; [constructor|].
    apply StronglySorted_inv in Hsorted as [Hsl Hhd].
    constructor.
    + apply IH; [done|]. intros e' He'. apply Hl. by right.
    + apply Forall_fmap, Forall_forall. intros e' He'. simpl.
      rewrite Forall_forall in Hhd. specialize (Hhd e' He').
      unfold key_desc in Hhd.
      destruct (Hl e ltac:(left)) as [<- _].
      destruct (Hl e' ltac:(by right)) as [<- _]. done.
  - intros name Hpos Hout.
    assert (Hin : memory.mkkv name (visits h name) ∈ sorted) by (by apply Hentry).
    rewrite <- (take_drop (Z.to_nat topN) sorted) in Hin.
    apply elem_of_app in Hin as [Hin|Hin].
    { exfalso. apply Hout. apply list_elem_of_fmap.
      by exists (memory.mkkv name (visits h name)). }
    split.
    + rewrite length_fmap, length_take.
      assert (Z.to_nat topN < length sorted)%nat; [|lia].
      destruct (decide (Z.to_nat topN < length sorted)%nat); [done|].
      rewrite drop_ge in Hin by lia. by apply elem_of_nil in Hin.
    + apply Forall_fmap, Forall_forall. intros e He. simpl.
      pose proof (StronglySorted_app_1_elem_of _ _ _ _ _ Hsorted He Hin) as Hle.
      unfold key_desc in Hle. simpl in Hle.
      destruct (Htake e He) as [<- _]. done.
Qed.

Lemma GetFrequent_top_witness :
  ∃ names, memory.GetFrequent ex_env ex_history_twice 1 = Some names
           ∧ NoDup names.
Proof.
  assert (H1 : go.range_sound ex_env) by (intros k m; reflexivity).
  assert (H2 : Z.of_nat (length (memory.Records ex_history_twice)) < 2 ^ 63)
    by (simpl; lia).
  assert (H3 : 0 <= 1 <= 2 ^ 44) by lia.
  destruct (GetFrequent_top ex_env ex_history_twice 1 H1 H2 H3)
    as (names & Hnames & Hnodup & _).
  by exists names.
Defined.

(** ** The prompt *)

Lemma prefix_split p s : String.prefix p s = true → ∃ b, s = p +:+ b.
Proof.
  revert s. induction p as [|x p IH]; intros s Hp; [by exists s|].
  destruct s as [|y s]; [done|]. simpl in Hp.
  destruct (ascii_dec x y) as [->|]; [|done].
  destruct (IH s Hp) as [b ->]. by exists b.
Qed.

Lemma Contains_split s substr :
  go.Contains s substr = true → ∃ a b, s = a +:+ substr +:+ b.
Proof.
  induction s as [|x s IH]; rewrite Contains_unfold;
    intros [Hp|Hc]%orb_true_iff; try done.
  - apply prefix_split in Hp as [b ->]. by exists "", b.
  - apply prefix_split in Hp as [b ->]. by exists "", b.
  - destruct (IH Hc) as (a & b & ->). by exists (String x a), b.
Qed.

Lemma Contains_trans s t u :
  go.Contains s t = true → go.Contains t u = true → go.Contains s u = true.
Proof.
  intros (a & b & ->)%Contains_split Htu.
  by apply Contains_append_r, Contains_append_l.
Qed.

Lemma Describe_names r : go.Contains (tools.Describe r) (tools.Name r) = true.
Proof.
  unfold tools.Describe.
  repeat (case_decide; try apply Contains_append_l);
    repeat apply Contains_append_l; apply Contains_self.
Qed.

Lemma Join_lists elems sep e :
  e ∈ elems → go.Contains (go.Join elems sep) e = true.
Proof.
  induction elems as [|x [|y rest] IH]; intros Hin.
  - by apply elem_of_nil in Hin.
  - apply list_elem_of_singleton in Hin as ->. apply Contains_self.
  - apply elem_of_cons in Hin as [->|Hin].
    + change (go.Join (x :: y :: rest) sep)
        with (x +:+ sep +:+ go.Join (y :: rest) sep).
      apply Contains_here.
    + change (go.Join (x :: y :: rest) sep)
        with (x +:+ sep +:+ go.Join (y :: rest) sep).
      by apply Contains_append_r, Contains_append_r, IH.
Qed.

Lemma WriteString_keeps (l : list string) sb x :
  go.Contains sb x = true → go.Contains (foldl String.append sb l) x = true.
Proof.
  revert sb. induction l as [|y l IH]; intros sb Hsb; [done|].
  simpl. by apply IH, Contains_append_l.
Qed.

Lemma WriteString_lists (l : list string) sb x :
  x ∈ l → go.Contains (foldl String.append sb l) x = true.
Proof.
  revert sb. induction l as [|y l IH]; intros sb Hin;
    [by apply elem_of_nil in Hin|].
  apply elem_of_cons in Hin as [->|Hin]; simpl.
  - apply WriteString_keeps, Contains_append_r, Contains_self.
  - by apply IH.
Qed.

Ltac written :=
  solve [ apply Contains_self
        | eassumption
        | apply WriteString_lists; eassumption
        | apply Join_lists; eassumption
        | apply Contains_append_r; written
        | apply Contains_append_l; written
        | apply WriteString_keeps; written ].

Lemma buildPrompt_contents E a mealType weather restaurants :
  let prompt := agent.buildPrompt E a mealType weather restaurants in
  (∀ i r, (i < 15)%nat → restaurants !! i = Some r →
     go.Contains prompt
       (go.itoa (i + 1) +:+ ". " +:+ tools.Describe r +:+ go.LF) = true
     ∧ go.Contains prompt (tools.Name r) = true)
  ∧ go.Contains prompt (tools.Describe_weather weather) = true
  ∧ go.Contains prompt (memory.Summary E (agent.history a)) = true
  ∧ Forall (λ kw, go.Contains prompt kw = true) (agent.tempExclude a).
Proof.
  intros prompt. subst prompt. unfold agent.buildPrompt. cbv zeta.
  split_and!.
  - intros i r Hi Hlook.
    assert (Hin : go.itoa (i + 1) +:+ ". " +:+ tools.Describe r +:+ go.LF
                  ∈ imap (λ i r, go.itoa (i + 1) +:+ ". " +:+ tools.Describe r +:+ go.LF)
                         (take 15 restaurants)).
    { apply elem_of_lookup_imap. exists i, r. split; [done|].
      by rewrite lookup_take_lt. }
    match goal with
    | |- go.Contains ?p ?line = true ∧ _ =>
        assert (Hline : go.Contains p line = true)
          by (destruct (agent.tempExclude a); written)
    end.
    split; [done|]. eapply Contains_trans; [exact Hline|].
    pose proof (Describe_names r). written.
  - destruct (agent.tempExclude a); written.
  - destruct (agent.tempExclude a); written.
  - apply Forall_forall. intros kw Hin.
    destruct (agent.tempExclude a) as [|k ks] eqn:Hex;
      [by apply elem_of_nil in Hin|]. written.
Qed.

(** X21.  Where the search finds candidates of which some are ranked,
    [GetRecommendation] remembers the whole ranked list as the candidates
    last offered, and the last call it makes is to the language model, with
    the conversation so far (or the system prompt, where there is none)
    followed by one user message; that message contains a numbered line
    with the description, and so the name, of each of the first fifteen
    ranked candidates, the summary of the history, and every keyword
    excluded in the session. *)
Theorem GetRecommendation_prompt W mealType s found r0 rs :
  let a := agent.self s in
  let loc := config.location (agent.cfg a) in
  agent.SearchNearby W (config.Lat loc) (config.Lng loc) (config.Radius loc) ""
    = go.Ok found →
  agent.ranked (agent.env W) a found = r0 :: rs →
  let out := agent.GetRecommendation W mealType s in
  agent.lastRestaurants (agent.self out.2) = r0 :: rs
  ∧ ∃ prompt,
      last (agent.calls out.2)
      = Some (agent.LLMCall
                (match agent.messages a with
                 | [] => [agent.mkMessage "system" agent.systemPrompt]
                 | _ :: _ => agent.messages a
                 end ++ [agent.mkMessage "user" prompt]))
      ∧ (∀ i r, (i < 15)%nat → (r0 :: rs) !! i = Some r →
           go.Contains prompt
             (go.itoa (i + 1) +:+ ". " +:+ tools.Describe r +:+ go.LF) = true
           ∧ go.Contains prompt (tools.Name r) = true)
      ∧ go.Contains prompt (memory.Summary (agent.env W) (agent.history a)) = true
      ∧ Forall (λ kw, go.Contains prompt kw = true) (agent.tempExclude a).
Proof.
  intros a loc Hsearch Hranked out. subst a loc out.
  unfold agent.GetRecommendation.
  destruct s as [[c h p ms ex last] fs cs].
  cbn [agent.self agent.cfg agent.messages agent.files agent.calls
       agent.history agent.tempExclude] in *.
  rewrite Hsearch, Hranked. cbv zeta.
  pose proof (buildPrompt_contents (agent.env W)
                (agent.set_lastRestaurants (r0 :: rs)
                   (agent.mkMealAgent c h p ms ex last))
                mealType
                match agent.GetWeather W (config.City (config.location c)) with
                | go.Ok info => info
                | go.Err _ => agent.placeholder_weather
                end (r0 :: rs)) as (Hlines & _ & Hsum & Hex).
  destruct ms as [|m ms];
    match goal with
    | |- context [agent.LLM_Chat W ?msgs] => destruct (agent.LLM_Chat W msgs)
    end;
    (split; [done|]; eexists; split;
     [unfold agent.logged, agent.with_self; simpl; rewrite last_snoc; reflexivity
     | split_and!; [exact Hlines | exact Hsum | exact Hex] ]).
Qed.

Lemma GetRecommendation_prompt_witness :
  agent.lastRestaurants
    (agent.self (agent.GetRecommendation ex_world "lunch" ex_sys).2)
  = [tools.set_Weight 150 ex_sichuan; tools.set_Weight 100 ex_noodle].
Proof.
  assert (H1 : agent.SearchNearby ex_world
                 (config.Lat (config.location (agent.cfg (agent.self ex_sys))))
                 (config.Lng (config.location (agent.cfg (agent.self ex_sys))))
                 (config.Radius (config.location (agent.cfg (agent.self ex_sys)))) ""
               = go.Ok [ex_hotpot; ex_noodle; ex_sichuan]) by reflexivity.
  assert (H2 : agent.ranked (agent.env ex_world) (agent.self ex_sys)
                 [ex_hotpot; ex_noodle; ex_sichuan]
               = [tools.set_Weight 150 ex_sichuan; tools.set_Weight 100 ex_noodle])
    by (vm_compute; reflexivity).
  exact (proj1 (GetRecommendation_prompt ex_world "lunch" ex_sys
                  [ex_hotpot; ex_noodle; ex_sichuan]
                  (tools.set_Weight 150 ex_sichuan)
                  [tools.set_Weight 100 ex_noodle] H1 H2)).
Defined.
